(** * PartialCsvParser: a shallow embedding of [include/PartialCsvParser.hpp]

    The header defines, in namespace [PCP], two free functions
    ([_get_current_line], [_split]) and two classes ([CsvConfig],
    [PartialCsvParser]).  They are embedded here as Rocq functions:

    - a [(const char *, size_t)] pair is a [list ascii] (the mapped bytes and
      their count), a pointer into it is an offset;
    - [size_t] values are [Z] with the 64-bit wrap-around written out
      ([wrap64]); pointer differences stay inside the buffer and are plain
      offsets;
    - [std::string] is [string], [std::vector<std::string>] is [list string];
    - [ASSERT] and [throw] are the [Throw] result of a small error monad
      (the header's [ASSERT] is taken as active: with [PCP_GTEST] it throws
      [PCPAssertionFailed], otherwise it is [assert]);
    - the [while] loops carry their loop variant as a [nat] argument. *)

From Stdlib Require Import ZArith List Bool Ascii String Lia.
From Stdlib Require Import DecimalString.
Import ListNotations.

Module PCP.

Local Open Scope Z_scope.

(** ** Errors *)

(** The exception classes of the header. *)
Inductive exn : Type :=
| PCPAssertionFailed (cond : string)
| PCPError (cause : string)
| PCPCsvError (cause : string).

Inductive result (A : Type) : Type :=
| Return (a : A)
| Throw (e : exn).

Arguments Return {A} a.
Arguments Throw {A} e.

Definition bind {A B : Type} (c : result A) (k : A -> result B) : result B :=
  match c with
  | Return a => k a
  | Throw e => Throw e
  end.

Notation "x <- c ;; k" := (bind c (fun x => k))
  (at level 61, c at next level, right associativity).
Notation "' p <- c ;; k" := (bind c (fun x => let p := x in k))
  (at level 61, p pattern, c at next level, right associativity).
Notation "c ;;; k" := (bind c (fun _ => k))
  (at level 61, right associativity).

(** [ASSERT(cond)]: the second argument is the text of the condition, which
    the macro puts in the message of [PCPAssertionFailed]. *)
Definition ASSERT (cond : bool) (text : string) : result unit :=
  if cond then Return tt else Throw (PCPAssertionFailed text).

(** ** Machine integers and characters *)

(** [size_t] on the LP64 targets the header is written for ([mmap],
    [fstat]). *)
Definition SIZE_MAX : Z := 2 ^ 64 - 1.

Definition wrap64 (z : Z) : Z := z mod 2 ^ 64.

(** [st_size] is an [off_t]: a regular file holds at most [2^63 - 1] bytes. *)
Definition OFF_MAX : Z := 2 ^ 63 - 1.

(** The value of a [char] holding the byte [c].  Whether plain [char] is
    signed is implementation-defined, so it is a parameter. *)
Definition char_value (char_is_signed : bool) (c : ascii) : Z :=
  let b := Z.of_nat (nat_of_ascii c) in
  if char_is_signed && (128 <=? b) then b - 256 else b.

(** [*(text + i)] for an offset inside the buffer. *)
Definition deref (text : list ascii) (i : nat) : ascii := nth i text zero.

(** The bytes [ptr .. ptr + len) of the buffer, for [ptr = text + start]. *)
Definition span (text : list ascii) (start len : nat) : list ascii :=
  firstn len (skipn start text).

(** [std::string(text + start, len)]. *)
Definition std_string (text : list ascii) (start len : nat) : string :=
  string_of_list_ascii (span text start len).

(** [ostream << size_t]. *)
Definition show_size (n : Z) : string := NilEmpty.string_of_uint (N.to_uint (Z.to_N n)).

(** ** [_get_current_line] *)

(** [while (line_start > text && *(line_start - 1) != line_terminator) --line_start;] *)
Fixpoint _line_start_loop (text : list ascii) (line_terminator : ascii)
    (line_start : nat) : nat :=
  match line_start with
  | O => O
  | S q =>
      if Ascii.eqb (deref text q) line_terminator then line_start
      else _line_start_loop text line_terminator q
  end.

(** [while (line_end < text + text_length_byte && *line_end != line_terminator) ++line_end;]
    The variant [n] is [text_length_byte - line_end]. *)
Fixpoint _line_end_loop (text : list ascii) (line_terminator : ascii)
    (n : nat) (line_end : nat) : nat :=
  match n with
  | O => line_end
  | S n' =>
      if Ascii.eqb (deref text line_end) line_terminator then line_end
      else _line_end_loop text line_terminator n' (S line_end)
  end.

(** The two out-parameters [line] (as an offset from [text]) and
    [line_length_byte] are returned as a pair.  [ASSERT(text)] holds of every
    mapped buffer and has no counterpart. *)
Definition _get_current_line (text : list ascii) (current_pos : Z)
    (line_terminator : ascii) : result (Z * Z) :=
  let text_length_byte := Z.of_nat (List.length text) in
  ASSERT (1 <=? text_length_byte) "text_length_byte >= 1" ;;;
  ASSERT (0 <=? current_pos) "0 <= current_pos" ;;;
  ASSERT (current_pos <=? text_length_byte - 1) "current_pos <= text_length_byte - 1" ;;;
  let line_start := _line_start_loop text line_terminator (Z.to_nat current_pos) in
  let line_end :=
    _line_end_loop text line_terminator
      (List.length text - Z.to_nat current_pos) (Z.to_nat current_pos) in
  Return (Z.of_nat line_start, Z.of_nat (line_end - line_start)).

(** ** [_split] *)

(** The loop of [_split]; its state is [(ret, p_beg, p_end)] with the two
    pointers as offsets from [str], and the variant [n] is
    [len - (p_end - str)]. *)
Fixpoint _split_loop (str : list ascii) (delimiter : ascii) (n : nat)
    (ret : list string) (p_beg p_end : nat) : list string * nat * nat :=
  match n with
  | O => (ret, p_beg, p_end)
  | S n' =>
      if Ascii.eqb (deref str p_end) delimiter then
        _split_loop str delimiter n'
          (ret ++ [std_string str p_beg (p_end - p_beg)]) (p_end + 1) (S p_end)
      else
        _split_loop str delimiter n' ret p_beg (S p_end)
  end.

Definition _split (str : list ascii) (delimiter : ascii) : list string :=
  let '(ret, p_beg, p_end) := _split_loop str delimiter (List.length str) [] 0 0 in
  ret ++ [std_string str p_beg (p_end - p_beg)].

(** ** [class CsvConfig] *)

(** The members that the parsing code reads.  [csv_text] stands for the pair
    [(csv_text, csv_size)]; [fd] and [filepath] only serve to obtain it.
    [header_length] is left uninitialised by the constructor when there is no
    header line and is never read in that case; the model puts 0 there. *)
Record CsvConfig : Type := mkCsvConfig {
  has_header_line : bool;
  field_terminator : ascii;
  line_terminator : ascii;
  csv_text : list ascii;
  headers : list string;
  header_length : Z;
  n_columns : Z
}.

Section Construction.

(** Signedness of plain [char] on the target. *)
Variable char_is_signed : bool.

(** The constructor, from the point where [open], [fstat] and [mmap] have
    succeeded and given the bytes [text] of the file. *)
Definition CsvConfig_new (text : list ascii) (has_header_line : bool)
    (field_terminator line_terminator : ascii) : result CsvConfig :=
  ASSERT (0 <=? char_value char_is_signed field_terminator) "0 <= field_terminator" ;;;
  ASSERT (char_value char_is_signed field_terminator <=? 127) "field_terminator <= 127" ;;;
  ASSERT (0 <=? char_value char_is_signed line_terminator) "0 <= line_terminator" ;;;
  ASSERT (char_value char_is_signed line_terminator <=? 127) "line_terminator <= 127" ;;;
  ' (line, line_length) <- _get_current_line text 0 line_terminator ;;
  let columns := _split (span text (Z.to_nat line) (Z.to_nat line_length)) field_terminator in
  Return {|
    has_header_line := has_header_line;
    field_terminator := field_terminator;
    line_terminator := line_terminator;
    csv_text := text;
    headers := if has_header_line then columns else [];
    header_length := if has_header_line then line_length else 0;
    n_columns := Z.of_nat (List.length columns)
  |}.

End Construction.

Definition filesize (c : CsvConfig) : Z := Z.of_nat (List.length (csv_text c)).

Definition content (c : CsvConfig) : list ascii := csv_text c.

Definition get_n_columns (c : CsvConfig) : Z := n_columns c.

Definition body_offset (c : CsvConfig) : Z :=
  if negb (has_header_line c) then 0
  else wrap64 (header_length c + 1).

Definition get_headers (c : CsvConfig) : result (list string) :=
  ASSERT (has_header_line c) "has_header_line" ;;;
  Return (headers c).

Definition get_field_terminator (c : CsvConfig) : ascii := field_terminator c.

Definition get_line_terminator (c : CsvConfig) : ascii := line_terminator c.

(** ** [class PartialCsvParser] *)

Record PartialCsvParser : Type := mkPartialCsvParser {
  csv_config : CsvConfig;
  parse_from : Z;
  parse_to : Z;
  cur_pos : Z
}.

(** [static const size_t PARSE_FROM_BODY_BEGINNING = -1;] and the same for
    [PARSE_TO_FILE_END]. *)
Definition PARSE_FROM_BODY_BEGINNING : Z := wrap64 (-1).
Definition PARSE_TO_FILE_END : Z := wrap64 (-1).

Definition PartialCsvParser_new (csv_config : CsvConfig)
    (parse_from parse_to : Z) : result PartialCsvParser :=
  let this_parse_from :=
    if parse_from =? PARSE_FROM_BODY_BEGINNING then body_offset csv_config
    else parse_from in
  let this_parse_to :=
    if parse_to =? PARSE_TO_FILE_END then wrap64 (filesize csv_config - 1)
    else parse_to in
  let cur_pos := this_parse_from in
  ASSERT (body_offset csv_config <=? this_parse_from)
    "csv_config.body_offset() <= this->parse_from" ;;;
  ASSERT (this_parse_to <? filesize csv_config)
    "this->parse_to < csv_config.filesize()" ;;;
  Return {|
    csv_config := csv_config;
    parse_from := this_parse_from;
    parse_to := this_parse_to;
    cur_pos := cur_pos
  |}.

(** The parser with both arguments defaulted. *)
Definition PartialCsvParser_default (csv_config : CsvConfig) : result PartialCsvParser :=
  PartialCsvParser_new csv_config PARSE_FROM_BODY_BEGINNING PARSE_TO_FILE_END.

Definition set_cur_pos (p : PartialCsvParser) (pos : Z) : PartialCsvParser :=
  {| csv_config := csv_config p;
     parse_from := parse_from p;
     parse_to := parse_to p;
     cur_pos := pos |}.

(** The text of the [PCPCsvError] built in [get_row]. *)
Definition mismatch_message (n_found n_expected : Z) (line : string) : string :=
  ("The following line has " ++ show_size n_found
   ++ " columns, while the first line has " ++ show_size n_expected
   ++ " columns." ++ String "010" line)%string.

(** What one pass through the body of the [while] loop of [get_row] does:
    it leaves [get_row] with a result, or it goes round the loop again. *)
Inductive iteration : Type :=
| Leave (p : PartialCsvParser) (r : result (list string))
| Again (p : PartialCsvParser).

(** The body of [while (cur_pos <= parse_to) { ... }]. *)
Definition get_row_body (p : PartialCsvParser) : iteration :=
  let cfg := csv_config p in
  match _get_current_line (content cfg) (cur_pos p) (get_line_terminator cfg) with
  | Throw e => Leave p (Throw e)
  | Return (line, line_length) =>
      if cur_pos p =? line then
        let p' := set_cur_pos p (wrap64 (cur_pos p + (line_length + 1))) in
        let columns :=
          _split (span (content cfg) (Z.to_nat line) (Z.to_nat line_length))
            (get_field_terminator cfg) in
        if negb (Z.of_nat (List.length columns) =? get_n_columns cfg) then
          Leave p'
            (Throw (PCPCsvError
               (mismatch_message (Z.of_nat (List.length columns)) (get_n_columns cfg)
                  (std_string (content cfg) (Z.to_nat line) (Z.to_nat line_length)))))
        else Leave p' (Return columns)
      else if parse_to p <? line + line_length + 1 then
        Leave p (Return [])
      else if parse_to p >=? line + line_length + 1 then
        Again (set_cur_pos p (wrap64 (line + line_length + 1)))
      else
        Again p
  end.

(** The loop of [get_row] with at most [fuel] passes through its body;
    [None] when the passes are used up before the loop is left. *)
Fixpoint get_row_loop (fuel : nat) (p : PartialCsvParser)
    : option (PartialCsvParser * result (list string)) :=
  if cur_pos p <=? parse_to p then
    match fuel with
    | O => None
    | S fuel' =>
        match get_row_body p with
        | Leave p' r => Some (p', r)
        | Again p' => get_row_loop fuel' p'
        end
    end
  else Some (p, Return []).

(** [get_row()]: the new state of the parser and what the call returned or
    threw.  The empty vector is [Return []].  The bound on the passes is the
    distance from the cursor to the end of the range. *)
Definition get_row (p : PartialCsvParser)
    : option (PartialCsvParser * result (list string)) :=
  get_row_loop (Z.to_nat (parse_to p + 1 - cur_pos p)) p.

(** ** A caller draining a parser *)

(** The loop every caller of the class writes: call [get_row] until it
    returns the empty vector.  Each call before that gives a row or throws;
    a [PCPCsvError] is caught and the loop goes on.  The results of the calls
    are collected in order. *)
Fixpoint drain_loop (fuel : nat) (p : PartialCsvParser)
    : option (list (result (list string))) :=
  match fuel with
  | O => None
  | S fuel' =>
      match get_row p with
      | None => None
      | Some (_, Return []) => Some []
      | Some (p', r) =>
          match drain_loop fuel' p' with
          | None => None
          | Some rs => Some (r :: rs)
          end
      end
  end.

Definition drain (p : PartialCsvParser) : option (list (result (list string))) :=
  drain_loop (S (Z.to_nat (parse_to p + 1 - cur_pos p))) p.

(** The rows among the collected results. *)
Fixpoint rows_of (rs : list (result (list string))) : list (list string) :=
  match rs with
  | [] => []
  | Return row :: rs' => row :: rows_of rs'
  | Throw _ :: rs' => rows_of rs'
  end.

(** Construct a parser over the range and drain it. *)
Definition parse_range (cfg : CsvConfig) (range : Z * Z)
    : option (list (result (list string))) :=
  match PartialCsvParser_new cfg (fst range) (snd range) with
  | Return p => drain p
  | Throw _ => None
  end.

(** ** Notions used to state the properties *)

(** Every byte of [s] equal to [c]: the occurrences of a delimiter. *)
Definition occurrences (c : ascii) (s : list ascii) : nat :=
  count_occ ascii_dec s c.

(** The fields written one after the other with the delimiter between
    them. *)
Fixpoint join (delimiter : ascii) (fields : list string) : list ascii :=
  match fields with
  | [] => []
  | f :: rest =>
      match rest with
      | [] => list_ascii_of_string f
      | _ :: _ => list_ascii_of_string f ++ delimiter :: join delimiter rest
      end
  end.

(** Splitting by recursion on the bytes still to read, with the bytes of the
    field being read in [cur]; [_split_loop] is compared with it. *)
Fixpoint split_from (delimiter : ascii) (cur rest : list ascii) : list string :=
  match rest with
  | [] => [string_of_list_ascii cur]
  | c :: rest' =>
      if Ascii.eqb c delimiter then
        string_of_list_ascii cur :: split_from delimiter [] rest'
      else split_from delimiter (cur ++ [c]) rest'
  end.

(** The first line of a buffer: its bytes up to the first line terminator,
    or all of them when there is none. *)
Fixpoint first_line (text : list ascii) (line_terminator : ascii) : list ascii :=
  match text with
  | [] => []
  | c :: text' =>
      if Ascii.eqb c line_terminator then []
      else c :: first_line text' line_terminator
  end.

(** Offset [i] is the first byte of a line: it is the start of the buffer or
    the byte before it is a line terminator. *)
Definition is_line_start (text : list ascii) (line_terminator : ascii)
    (i : nat) : bool :=
  match i with
  | O => true
  | S j => Ascii.eqb (deref text j) line_terminator
  end.

(** The first bytes of lines among the offsets [from .. from + count). *)
Definition line_starts (text : list ascii) (line_terminator : ascii)
    (from count : nat) : list nat :=
  filter (is_line_start text line_terminator) (seq from count).

(** The lines a range owns: the offsets [s] with [from <= s <= to] that are
    the first byte of a line, in increasing order. *)
Definition owned_lines (cfg : CsvConfig) (from to : Z) : list Z :=
  map Z.of_nat
    (line_starts (content cfg) (get_line_terminator cfg)
       (Z.to_nat from) (Z.to_nat (to + 1 - from))).

(** Length of the line around offset [s], as [_get_current_line] gives it. *)
Definition line_length_at (cfg : CsvConfig) (s : Z) : Z :=
  match _get_current_line (content cfg) s (get_line_terminator cfg) with
  | Return (_, line_length) => line_length
  | Throw _ => 0
  end.

(** The offset just after the line that starts at [s] and its terminator. *)
Definition next_line (cfg : CsvConfig) (s : Z) : Z :=
  s + line_length_at cfg s + 1.

(** What [get_row] gives for the line whose first byte is [s]: its fields,
    or the [PCPCsvError] for a line with the wrong number of them. *)
Definition row_at (cfg : CsvConfig) (s : Z) : result (list string) :=
  let line_length := line_length_at cfg s in
  let columns :=
    _split (span (content cfg) (Z.to_nat s) (Z.to_nat line_length))
      (get_field_terminator cfg) in
  if negb (Z.of_nat (List.length columns) =? get_n_columns cfg) then
    Throw (PCPCsvError
      (mismatch_message (Z.of_nat (List.length columns)) (get_n_columns cfg)
         (std_string (content cfg) (Z.to_nat s) (Z.to_nat line_length))))
  else Return columns.

(** [ranges] cuts the bytes [lo .. hi) into consecutive non-empty pieces,
    each given by its first and last offset, the way [parse_from] and
    [parse_to] are passed to the constructor. *)
Fixpoint is_partition (lo hi : Z) (ranges : list (Z * Z)) : Prop :=
  match ranges with
  | [] => hi <= lo
  | (from, to) :: rest =>
      from = lo /\ from <= to /\ to < hi /\ is_partition (to + 1) hi rest
  end.

(** What the constructor's second [ASSERT] and the types give of a parser:
    the cursor is a [size_t], the range ends inside the file and the file is
    one [fstat] can measure. *)
Definition parser_ok (p : PartialCsvParser) : Prop :=
  0 <= cur_pos p /\
  parse_to p < filesize (csv_config p) /\
  filesize (csv_config p) <= OFF_MAX.

(** The result of the call of [get_row] that follows [n] earlier calls. *)
Fixpoint get_row_after (n : nat) (p : PartialCsvParser)
    : option (PartialCsvParser * result (list string)) :=
  match n with
  | O => get_row p
  | S n' =>
      match get_row p with
      | Some (p', _) => get_row_after n' p'
      | None => None
      end
  end.

(** ** Example files *)

Definition newline : string := String "010" EmptyString.

(** The file of the documentation's scenario: a header and two rows. *)
Definition abc_text : list ascii :=
  list_ascii_of_string
    ("a,b,c" ++ newline ++ "1,2,3" ++ newline ++ "4,5,6" ++ newline)%string.

Definition abc_config : CsvConfig :=
  {| has_header_line := true;
     field_terminator := ",";
     line_terminator := "010";
     csv_text := abc_text;
     headers := ["a"; "b"; "c"]%string;
     header_length := 5;
     n_columns := 3 |}.

(** A file that only has a header, without a terminator after it. *)
Definition header_only_config : CsvConfig :=
  {| has_header_line := true;
     field_terminator := ",";
     line_terminator := "010";
     csv_text := list_ascii_of_string "a,b";
     headers := ["a"; "b"]%string;
     header_length := 3;
     n_columns := 2 |}.

(** A file without header whose second line has one field too few. *)
Definition ragged_config : CsvConfig :=
  {| has_header_line := false;
     field_terminator := ",";
     line_terminator := "010";
     csv_text := list_ascii_of_string ("a,b" ++ newline ++ "1" ++ newline ++ "4,5")%string;
     headers := [];
     header_length := 0;
     n_columns := 2 |}.

(** The offset where the forward loop of [_get_current_line] stops when it
    is started at offset [q]. *)
Definition line_end (text : list ascii) (line_terminator : ascii) (q : nat) : nat :=
  _line_end_loop text line_terminator (List.length text - q) q.

(** ** Notions for the further properties *)

(** A row written back: its fields joined by the field terminator, then the
    line terminator. *)
Definition unparse_row (cfg : CsvConfig) (row : list string) : list ascii :=
  join (get_field_terminator cfg) row ++ [get_line_terminator cfg].

Definition unparse (cfg : CsvConfig) (rows : list (list string)) : list ascii :=
  flat_map (unparse_row cfg) rows.

(** The states calls of [get_row] lead to from the state [p0]: [p0] itself,
    and the state after one more call on any of them. *)
Inductive reachable (p0 : PartialCsvParser) : PartialCsvParser -> Prop :=
| reach_start : reachable p0 p0
| reach_call (p p' : PartialCsvParser) (r : result (list string)) :
    reachable p0 p -> get_row p = Some (p', r) -> reachable p0 p'.

(** * Properties *)

(** ** Arithmetic of [size_t] *)

Lemma wrap64_small (z : Z) : 0 <= z < 2 ^ 64 -> wrap64 z = z.
Proof. intros H. unfold wrap64. apply Z.mod_small. exact H. Qed.

Lemma wrap64_nonneg (z : Z) : 0 <= wrap64 z.
Proof. unfold wrap64. apply Z.mod_pos_bound. reflexivity. Qed.

Lemma OFF_MAX_lt : OFF_MAX + 2 < 2 ^ 64.
Proof. unfold OFF_MAX. reflexivity. Qed.

(** ** Buffers *)

Lemma deref_app_here (pre : list ascii) (c : ascii) (post : list ascii) :
  deref (pre ++ c :: post) (List.length pre) = c.
Proof.
  unfold deref. rewrite app_nth2 by lia. now rewrite Nat.sub_diag.
Qed.

Lemma skipn_deref (text : list ascii) (i : nat) :
  (i < List.length text)%nat ->
  skipn i text = deref text i :: skipn (S i) text.
Proof.
  revert i. induction text as [|c text IH]; intros i Hi; simpl in Hi.
  - lia.
  - destruct i as [|i]; [reflexivity|].
    simpl. unfold deref. simpl. apply IH. lia.
Qed.

Lemma span_snoc (text : list ascii) (start len : nat) :
  (start + len < List.length text)%nat ->
  span text start (S len) = span text start len ++ [deref text (start + len)].
Proof.
  unfold span. revert start. induction len as [|len IH]; intros start H.
  - rewrite Nat.add_0_r in *. rewrite (skipn_deref text start) by lia. reflexivity.
  - rewrite (skipn_deref text start) by lia.
    change (firstn (S (S len)) (deref text start :: skipn (S start) text))
      with (deref text start :: firstn (S len) (skipn (S start) text)).
    rewrite IH by lia.
    replace (S start + len)%nat with (start + S len)%nat by lia.
    reflexivity.
Qed.

Lemma span_empty (text : list ascii) (start : nat) : span text start 0 = [].
Proof. reflexivity. Qed.

(** ** The two loops of [_get_current_line] *)

Section Lines.

Variable text : list ascii.
Variable lt : ascii.

Lemma line_start_loop_le (p : nat) : (_line_start_loop text lt p <= p)%nat.
Proof.
  induction p as [|p IH]; simpl; [lia|].
  destruct (Ascii.eqb (deref text p) lt); lia.
Qed.

Lemma line_start_loop_is_start (p : nat) :
  is_line_start text lt (_line_start_loop text lt p) = true.
Proof.
  induction p as [|p IH]; simpl; [reflexivity|].
  destruct (Ascii.eqb (deref text p) lt) eqn:E; [exact E | exact IH].
Qed.

Lemma line_start_loop_clear (p j : nat) :
  (_line_start_loop text lt p <= j < p)%nat ->
  Ascii.eqb (deref text j) lt = false.
Proof.
  induction p as [|p IH]; simpl; [lia|].
  destruct (Ascii.eqb (deref text p) lt) eqn:E; intros H; [lia|].
  destruct (Nat.eq_dec j p) as [->|Hne]; [exact E|].
  apply IH. lia.
Qed.

Lemma line_start_loop_fix (p : nat) :
  is_line_start text lt p = true <-> _line_start_loop text lt p = p.
Proof.
  destruct p as [|p]; simpl; [tauto|].
  destruct (Ascii.eqb (deref text p) lt) eqn:E; split; intros H;
    try reflexivity; try discriminate.
  pose proof (line_start_loop_le p). lia.
Qed.

Lemma line_end_loop_bounds (n p : nat) :
  (p + n = List.length text)%nat ->
  (p <= _line_end_loop text lt n p <= List.length text)%nat.
Proof.
  revert p. induction n as [|n IH]; intros p H; simpl; [lia|].
  destruct (Ascii.eqb (deref text p) lt); [lia|].
  specialize (IH (S p)). lia.
Qed.

Lemma line_end_loop_clear (n p j : nat) :
  (p <= j < _line_end_loop text lt n p)%nat ->
  Ascii.eqb (deref text j) lt = false.
Proof.
  revert p. induction n as [|n IH]; intros p; simpl; [lia|].
  destruct (Ascii.eqb (deref text p) lt) eqn:E; intros H; [lia|].
  destruct (Nat.eq_dec j p) as [->|Hne]; [exact E|].
  apply (IH (S p)). lia.
Qed.

Lemma line_end_loop_stop (n p : nat) :
  (p + n = List.length text)%nat ->
  (_line_end_loop text lt n p < List.length text)%nat ->
  Ascii.eqb (deref text (_line_end_loop text lt n p)) lt = true.
Proof.
  revert p. induction n as [|n IH]; intros p H; simpl; [lia|].
  destruct (Ascii.eqb (deref text p) lt) eqn:E; intros Hlt; [exact E|].
  apply IH; [lia | exact Hlt].
Qed.

End Lines.

(** ** [_get_current_line] *)

(** Inside the buffer the three [ASSERT]s hold and the call returns what the
    two loops found. *)
Lemma get_current_line_inside (text : list ascii) (lt : ascii) (pos : Z) :
  0 <= pos < Z.of_nat (List.length text) ->
  _get_current_line text pos lt =
    Return (Z.of_nat (_line_start_loop text lt (Z.to_nat pos)),
            Z.of_nat (_line_end_loop text lt (List.length text - Z.to_nat pos) (Z.to_nat pos)
                      - _line_start_loop text lt (Z.to_nat pos))).
Proof.
  intros H. unfold _get_current_line.
  replace (1 <=? Z.of_nat (List.length text)) with true
    by (symmetry; apply Z.leb_le; lia).
  replace (0 <=? pos) with true by (symmetry; apply Z.leb_le; lia).
  replace (pos <=? Z.of_nat (List.length text) - 1) with true
    by (symmetry; apply Z.leb_le; lia).
  reflexivity.
Qed.

(** C2: for a position inside a non-empty buffer, [_get_current_line]
    returns the offset of the first byte of the line that contains the
    position (offset 0, or the byte after the nearest line terminator before
    the position) and the number of bytes from there up to, and without, the
    first line terminator at or after the position, or up to the end of the
    buffer when there is none.  The function is pure: it has no effect
    besides its result. *)
Theorem get_current_line_locates (text : list ascii) (lt : ascii) (position : Z) :
  0 <= position < Z.of_nat (List.length text) ->
  exists line_start line_length : nat,
    _get_current_line text position lt
      = Return (Z.of_nat line_start, Z.of_nat line_length) /\
    (line_start <= Z.to_nat position <= line_start + line_length)%nat /\
    (line_start + line_length <= List.length text)%nat /\
    (line_start = O \/ exists j, line_start = S j /\ deref text j = lt) /\
    (forall j, (line_start <= j < line_start + line_length)%nat -> deref text j <> lt) /\
    ((line_start + line_length)%nat = List.length text \/
     deref text (line_start + line_length) = lt).
Proof.
  intros H.
  set (p := Z.to_nat position).
  set (s := _line_start_loop text lt p).
  set (e := _line_end_loop text lt (List.length text - p) p).
  assert (Hp : (p + (List.length text - p) = List.length text)%nat) by lia.
  pose proof (line_start_loop_le text lt p) as Hs.
  pose proof (line_end_loop_bounds text lt _ _ Hp) as He.
  fold s in Hs. fold e in He.
  exists s, (e - s)%nat.
  split; [apply get_current_line_inside; exact H|].
  split; [lia|]. split; [lia|]. split; [|split].
  - pose proof (line_start_loop_is_start text lt p) as Hstart. fold s in Hstart.
    destruct s as [|j]; [now left|].
    right. exists j. split; [reflexivity|].
    apply Ascii.eqb_eq. exact Hstart.
  - intros j Hj. apply Ascii.eqb_neq.
    destruct (Nat.lt_ge_cases j p) as [Hlt|Hge].
    + apply (line_start_loop_clear text lt p). fold s. lia.
    + apply (line_end_loop_clear text lt (List.length text - p) p). fold e. lia.
  - replace (s + (e - s))%nat with e by lia.
    destruct (Nat.eq_dec e (List.length text)) as [Heq|Hne]; [now left|].
    right. apply Ascii.eqb_eq.
    apply (line_end_loop_stop text lt _ _ Hp). fold e. lia.
Qed.

(** The statement at a concrete buffer: ["ab\ncd"], position 4. *)
Lemma get_current_line_locates_witness :
  exists line_start line_length : nat,
    _get_current_line (list_ascii_of_string ("ab" ++ String "010" "cd")) 4 "010"
      = Return (Z.of_nat line_start, Z.of_nat line_length) /\
    (line_start <= Z.to_nat 4 <= line_start + line_length)%nat /\
    (line_start + line_length
       <= List.length (list_ascii_of_string ("ab" ++ String "010" "cd")))%nat /\
    (line_start = O \/
     exists j, line_start = S j /\
       deref (list_ascii_of_string ("ab" ++ String "010" "cd")) j = "010"%char) /\
    (forall j, (line_start <= j < line_start + line_length)%nat ->
       deref (list_ascii_of_string ("ab" ++ String "010" "cd")) j <> "010"%char) /\
    ((line_start + line_length)%nat
       = List.length (list_ascii_of_string ("ab" ++ String "010" "cd")) \/
     deref (list_ascii_of_string ("ab" ++ String "010" "cd"))
       (line_start + line_length) = "010"%char).
Proof.
  apply (get_current_line_locates
           (list_ascii_of_string ("ab" ++ String "010" "cd")) "010" 4).
  simpl. lia.
Defined.

(** ** [_split] *)

Section Split.

Variable d : ascii.

(** The loop of [_split], followed by the last [push_back], reads the rest
    of the bytes the way [split_from] does. *)
Lemma split_loop_split_from (str : list ascii) (n : nat) :
  forall (ret : list string) (p_beg p_end : nat),
    (p_beg <= p_end)%nat ->
    (p_end + n = List.length str)%nat ->
    (let '(ret', b, e) := _split_loop str d n ret p_beg p_end in
     ret' ++ [std_string str b (e - b)])
    = ret ++ split_from d (span str p_beg (p_end - p_beg)) (skipn p_end str).
Proof.
  induction n as [|n IH]; intros ret p_beg p_end Hle Hlen.
  - simpl. rewrite skipn_all2 by lia. reflexivity.
  - simpl. rewrite (skipn_deref str p_end) by lia. simpl.
    destruct (Ascii.eqb (deref str p_end) d).
    + rewrite IH by lia.
      replace (S p_end - (p_end + 1))%nat with O by lia.
      rewrite span_empty, <- app_assoc. reflexivity.
    + rewrite IH by lia.
      replace (S p_end - p_beg)%nat with (S (p_end - p_beg)) by lia.
      rewrite span_snoc by lia.
      replace (p_beg + (p_end - p_beg))%nat with p_end by lia.
      reflexivity.
Qed.

Lemma split_as_split_from (str : list ascii) :
  _split str d = split_from d [] str.
Proof.
  unfold _split.
  pose proof (split_loop_split_from str (List.length str) [] 0 0) as H.
  destruct (_split_loop str d (List.length str) [] 0 0) as [[ret b] e].
  rewrite H by lia. reflexivity.
Qed.

Lemma split_from_length (rest cur : list ascii) :
  List.length (split_from d cur rest) = S (occurrences d rest).
Proof.
  revert cur. unfold occurrences.
  induction rest as [|c rest IH]; intros cur; simpl; [reflexivity|].
  destruct (Ascii.eqb c d) eqn:E.
  - apply Ascii.eqb_eq in E. subst c.
    destruct (ascii_dec d d) as [_|Hne]; [|contradiction].
    simpl. now rewrite IH.
  - apply Ascii.eqb_neq in E.
    destruct (ascii_dec c d) as [Heq|_]; [contradiction|].
    apply IH.
Qed.

Lemma split_from_nonempty (rest cur : list ascii) : split_from d cur rest <> [].
Proof.
  intros H. pose proof (split_from_length rest cur) as L.
  rewrite H in L. discriminate.
Qed.

Lemma split_from_join (rest cur : list ascii) :
  join d (split_from d cur rest) = cur ++ rest.
Proof.
  revert cur. induction rest as [|c rest IH]; intros cur; simpl.
  - rewrite list_ascii_of_string_of_list_ascii. now rewrite app_nil_r.
  - destruct (Ascii.eqb c d) eqn:E.
    + apply Ascii.eqb_eq in E. subst c.
      specialize (IH []).
      change (join d (string_of_list_ascii cur :: split_from d [] rest))
        with (match split_from d [] rest with
              | [] => list_ascii_of_string (string_of_list_ascii cur)
              | _ :: _ =>
                  list_ascii_of_string (string_of_list_ascii cur)
                    ++ d :: join d (split_from d [] rest)
              end).
      destruct (split_from d [] rest) eqn:S0.
      * exfalso. exact (split_from_nonempty rest [] S0).
      * rewrite IH, list_ascii_of_string_of_list_ascii. reflexivity.
    + rewrite IH, <- app_assoc. reflexivity.
Qed.

Lemma split_from_no_delimiter (rest cur : list ascii) :
  ~ In d cur ->
  Forall (fun f => ~ In d (list_ascii_of_string f)) (split_from d cur rest).
Proof.
  revert cur. induction rest as [|c rest IH]; intros cur Hcur; simpl.
  - constructor; [|constructor].
    now rewrite list_ascii_of_string_of_list_ascii.
  - destruct (Ascii.eqb c d) eqn:E.
    + constructor.
      * now rewrite list_ascii_of_string_of_list_ascii.
      * apply IH. intros [].
    + apply IH. intros Hin. apply in_app_or in Hin.
      destruct Hin as [Hin|[Heq|[]]]; [now apply Hcur|].
      apply Ascii.eqb_neq in E. now apply E.
Qed.

End Split.

Lemma split_nonempty (str : list ascii) (d : ascii) : _split str d <> [].
Proof. rewrite split_as_split_from. apply split_from_nonempty. Qed.

Lemma split_length (str : list ascii) (d : ascii) :
  List.length (_split str d) = S (occurrences d str).
Proof. rewrite split_as_split_from. apply split_from_length. Qed.

(** C3: [_split] returns one field more than there are delimiter bytes in
    its input; the fields are the stretches between the delimiters, in
    order, unchanged (joining them with the delimiter gives the input back,
    and no field holds a delimiter), so empty fields are kept and nothing is
    trimmed or unquoted.  The input [a,,b] gives the fields [a], empty and
    [b], and the empty input gives one empty field. *)
Theorem split_fields (str : list ascii) (delimiter : ascii) :
  List.length (_split str delimiter) = S (occurrences delimiter str) /\
  join delimiter (_split str delimiter) = str /\
  Forall (fun f => ~ In delimiter (list_ascii_of_string f)) (_split str delimiter) /\
  _split (list_ascii_of_string "a,,b") "," = ["a"; EmptyString; "b"]%string /\
  _split (list_ascii_of_string " a , b") "," = [" a "; " b"]%string /\
  _split ["034"; "b"; ","; "c"; "034"]%char ","
    = [String "034" "b"; String "c" (String "034" EmptyString)]%string /\
  _split [] delimiter = [EmptyString].
Proof.
  rewrite !split_as_split_from.
  split; [apply split_from_length|].
  split; [apply split_from_join|].
  split; [apply split_from_no_delimiter; intros []|].
  repeat split; reflexivity.
Qed.

(** ** [CsvConfig] *)

Lemma line_end_loop_first_line (lt : ascii) (text pre : list ascii) :
  _line_end_loop (pre ++ text) lt (List.length text) (List.length pre)
  = (List.length pre + List.length (first_line text lt))%nat.
Proof.
  revert pre. induction text as [|c text IH]; intros pre; simpl.
  - lia.
  - rewrite deref_app_here.
    destruct (Ascii.eqb c lt); simpl; [lia|].
    specialize (IH (pre ++ [c])).
    rewrite <- app_assoc, length_app in IH. simpl in IH.
    replace (S (List.length pre)) with (List.length pre + 1)%nat by lia.
    rewrite IH. lia.
Qed.

Lemma firstn_first_line (lt : ascii) (text : list ascii) :
  firstn (List.length (first_line text lt)) text = first_line text lt.
Proof.
  induction text as [|c text IH]; simpl; [reflexivity|].
  destruct (Ascii.eqb c lt); simpl; [reflexivity|].
  now rewrite IH.
Qed.

Lemma first_line_length_le (lt : ascii) (text : list ascii) :
  (List.length (first_line text lt) <= List.length text)%nat.
Proof.
  induction text as [|c text IH]; simpl; [lia|].
  destruct (Ascii.eqb c lt); simpl; lia.
Qed.

(** At position 0 of a non-empty buffer [_get_current_line] finds the first
    line. *)
Lemma get_current_line_first (text : list ascii) (lt : ascii) :
  text <> [] ->
  _get_current_line text 0 lt
  = Return (0, Z.of_nat (List.length (first_line text lt))).
Proof.
  intros Hne.
  rewrite get_current_line_inside
    by (destruct text; [contradiction | simpl List.length; lia]).
  change (Z.to_nat 0) with O. simpl _line_start_loop.
  rewrite !Nat.sub_0_r.
  pose proof (line_end_loop_first_line lt text []) as H. simpl in H.
  rewrite H. reflexivity.
Qed.

Lemma get_current_line_empty (pos : Z) (lt : ascii) :
  _get_current_line [] pos lt = Throw (PCPAssertionFailed "text_length_byte >= 1").
Proof. reflexivity. Qed.

Lemma non_ascii_char_value (char_is_signed : bool) (c : ascii) :
  128 <= Z.of_nat (nat_of_ascii c) ->
  (0 <=? char_value char_is_signed c) && (char_value char_is_signed c <=? 127) = false.
Proof.
  destruct c as [b0 b1 b2 b3 b4 b5 b6 b7].
  destruct b7.
  - intros _. destruct char_is_signed, b0, b1, b2, b3, b4, b5, b6; reflexivity.
  - intros H. exfalso.
    destruct b0, b1, b2, b3, b4, b5, b6; vm_compute in H; apply H; reflexivity.
Qed.

(** C8: when the field terminator or the line terminator is a byte outside
    0..127, the constructor of [CsvConfig] fails on one of its four
    [ASSERT]s on the terminators; the failure is the same whatever the bytes
    of the file and the header flag, so nothing has been parsed when it is
    raised. *)
Theorem non_ascii_terminator_rejected (char_is_signed : bool)
    (field_terminator line_terminator : ascii) :
  128 <= Z.of_nat (nat_of_ascii field_terminator) \/
  128 <= Z.of_nat (nat_of_ascii line_terminator) ->
  exists cond : string,
    In cond ["0 <= field_terminator"; "field_terminator <= 127";
             "0 <= line_terminator"; "line_terminator <= 127"]%string /\
    forall (text : list ascii) (has_header_line : bool),
      CsvConfig_new char_is_signed text has_header_line
        field_terminator line_terminator
      = Throw (PCPAssertionFailed cond).
Proof.
  intros H. unfold CsvConfig_new, ASSERT.
  destruct (0 <=? char_value char_is_signed field_terminator) eqn:F0;
    [|eexists; split; [|intros; reflexivity]; simpl; tauto].
  destruct (char_value char_is_signed field_terminator <=? 127) eqn:F1;
    [|eexists; split; [|intros; reflexivity]; simpl; tauto].
  destruct (0 <=? char_value char_is_signed line_terminator) eqn:L0;
    [|eexists; split; [|intros; reflexivity]; simpl; tauto].
  destruct (char_value char_is_signed line_terminator <=? 127) eqn:L1;
    [|eexists; split; [|intros; reflexivity]; simpl; tauto].
  exfalso. destruct H as [H|H];
    apply (non_ascii_char_value char_is_signed) in H.
  - rewrite F0, F1 in H. discriminate.
  - rewrite L0, L1 in H. discriminate.
Qed.

(** A field terminator of byte 200 with signed [char]. *)
Lemma non_ascii_terminator_rejected_witness :
  exists cond : string,
    In cond ["0 <= field_terminator"; "field_terminator <= 127";
             "0 <= line_terminator"; "line_terminator <= 127"]%string /\
    forall (text : list ascii) (has_header_line : bool),
      CsvConfig_new true text has_header_line "200" "010"
      = Throw (PCPAssertionFailed cond).
Proof.
  apply (non_ascii_terminator_rejected true "200" "010").
  left. vm_compute. discriminate.
Defined.

(** What a successful construction stores. *)
Lemma CsvConfig_new_inv (char_is_signed : bool) (text : list ascii)
    (hh : bool) (ft lt : ascii) (cfg : CsvConfig) :
  CsvConfig_new char_is_signed text hh ft lt = Return cfg ->
  text <> [] /\
  cfg = {| has_header_line := hh;
           field_terminator := ft;
           line_terminator := lt;
           csv_text := text;
           headers := if hh then _split (first_line text lt) ft else [];
           header_length :=
             if hh then Z.of_nat (List.length (first_line text lt)) else 0;
           n_columns := Z.of_nat (List.length (_split (first_line text lt) ft)) |}.
Proof.
  unfold CsvConfig_new, ASSERT.
  destruct (0 <=? char_value char_is_signed ft); [|discriminate].
  destruct (char_value char_is_signed ft <=? 127); [|discriminate].
  destruct (0 <=? char_value char_is_signed lt); [|discriminate].
  destruct (char_value char_is_signed lt <=? 127); [|discriminate].
  simpl bind. intros H.
  assert (Hne : text <> []) by (intros ->; discriminate H).
  rewrite get_current_line_first in H by exact Hne.
  simpl bind in H. change (Z.to_nat 0) with O in H. rewrite Nat2Z.id in H.
  unfold span in H. simpl skipn in H. rewrite firstn_first_line in H.
  injection H as <-. split; [exact Hne | reflexivity].
Qed.

(** C5: a [CsvConfig] that was constructed has as column count the number
    of fields of the first line of the buffer; its [body_offset] is 0
    without a header line and the length of the first line plus 1 with one;
    with a header line the header names are the fields of the first line. *)
Theorem CsvConfig_new_schema (char_is_signed : bool) (text : list ascii)
    (has_header : bool) (ft lt : ascii) (cfg : CsvConfig) :
  Z.of_nat (List.length text) <= OFF_MAX ->
  CsvConfig_new char_is_signed text has_header ft lt = Return cfg ->
  content cfg = text /\
  get_n_columns cfg = Z.of_nat (List.length (_split (first_line text lt) ft)) /\
  get_n_columns cfg = Z.of_nat (occurrences ft (first_line text lt)) + 1 /\
  body_offset cfg
    = (if has_header then Z.of_nat (List.length (first_line text lt)) + 1 else 0) /\
  (has_header = true -> get_headers cfg = Return (_split (first_line text lt) ft)).
Proof.
  intros Hsize Hnew.
  apply CsvConfig_new_inv in Hnew. destruct Hnew as [_ ->].
  unfold content, get_n_columns, body_offset, get_headers. simpl.
  split; [reflexivity|]. split; [reflexivity|]. split; [|split].
  - rewrite split_length. lia.
  - destruct has_header; simpl; [|reflexivity].
    apply wrap64_small.
    pose proof (first_line_length_le lt text). pose proof OFF_MAX_lt. lia.
  - intros ->. reflexivity.
Qed.

(** The scenario of the documentation: a header and two rows. *)
Lemma CsvConfig_new_schema_witness :
  content abc_config = abc_text /\
  get_n_columns abc_config
    = Z.of_nat (List.length (_split (first_line abc_text "010") ",")) /\
  get_n_columns abc_config
    = Z.of_nat (occurrences "," (first_line abc_text "010")) + 1 /\
  body_offset abc_config
    = Z.of_nat (List.length (first_line abc_text "010")) + 1 /\
  (true = true ->
   get_headers abc_config = Return (_split (first_line abc_text "010") ",")).
Proof.
  apply (CsvConfig_new_schema true abc_text true "," "010" abc_config).
  - vm_compute. discriminate.
  - reflexivity.
Defined.

Example abc_schema :
  CsvConfig_new true abc_text true "," "010" = Return abc_config /\
  get_n_columns abc_config = 3 /\ body_offset abc_config = 6 /\
  get_headers abc_config = Return ["a"; "b"; "c"]%string.
Proof. repeat split. Qed.

(** ** First bytes of lines *)

Section LineStarts.

Variable text : list ascii.
Variable lt : ascii.

Lemma line_starts_none (from count : nat) :
  (forall j, (from <= j < from + count)%nat -> is_line_start text lt j = false) ->
  line_starts text lt from count = [].
Proof.
  revert from. unfold line_starts.
  induction count as [|count IH]; intros from H; simpl; [reflexivity|].
  rewrite H by lia. apply IH. intros j Hj. apply H. lia.
Qed.

Lemma line_starts_app (from c1 c2 : nat) :
  line_starts text lt from (c1 + c2)
  = line_starts text lt from c1 ++ line_starts text lt (from + c1) c2.
Proof. unfold line_starts. now rewrite seq_app, filter_app. Qed.

Lemma line_starts_cons (from count : nat) :
  is_line_start text lt from = true ->
  line_starts text lt from (S count) = from :: line_starts text lt (S from) count.
Proof. intros H. unfold line_starts. simpl. now rewrite H. Qed.

Lemma line_starts_length (from count : nat) :
  (List.length (line_starts text lt from count) <= count)%nat.
Proof.
  unfold line_starts.
  pose proof (filter_length_le (is_line_start text lt) (seq from count)) as H.
  rewrite length_seq in H. exact H.
Qed.

Lemma line_starts_NoDup (from count : nat) :
  NoDup (line_starts text lt from count).
Proof. unfold line_starts. apply NoDup_filter, seq_NoDup. Qed.

Lemma line_starts_In (from count s : nat) :
  In s (line_starts text lt from count) <->
  (from <= s < from + count)%nat /\ is_line_start text lt s = true.
Proof. unfold line_starts. rewrite filter_In, in_seq. tauto. Qed.

(** Offsets without a line start can be dropped from the front of a range. *)
Lemma line_starts_skip (a b count : nat) :
  (a <= b)%nat ->
  (forall j, (a <= j < b)%nat -> (j < a + count)%nat ->
             is_line_start text lt j = false) ->
  line_starts text lt a count = line_starts text lt b (count - (b - a)).
Proof.
  intros Hab H.
  destruct (Nat.le_gt_cases (b - a) count) as [Hle|Hgt].
  - replace count with ((b - a) + (count - (b - a)))%nat at 1 by lia.
    rewrite line_starts_app.
    rewrite line_starts_none by (intros j Hj; apply H; lia).
    replace (a + (b - a))%nat with b by lia. reflexivity.
  - replace (count - (b - a))%nat with O by lia.
    rewrite line_starts_none by (intros j Hj; apply H; lia).
    reflexivity.
Qed.

(** After offset [q] of a line and up to where the line ends, no line
    starts. *)
Lemma no_line_start_inside (q j : nat) :
  (q < j <= line_end text lt q)%nat -> is_line_start text lt j = false.
Proof.
  intros H. destruct j as [|j]; [lia|]. simpl.
  apply (line_end_loop_clear text lt (List.length text - q) q).
  unfold line_end in H. lia.
Qed.

Lemma line_end_bounds (q : nat) :
  (q <= List.length text)%nat ->
  (q <= line_end text lt q <= List.length text)%nat.
Proof. intros H. apply line_end_loop_bounds. lia. Qed.

(** The byte after a terminator that ends a line is a line start. *)
Lemma line_start_after_end (q : nat) :
  (q <= List.length text)%nat ->
  (line_end text lt q < List.length text)%nat ->
  is_line_start text lt (S (line_end text lt q)) = true.
Proof.
  intros Hq H. simpl. apply line_end_loop_stop; [lia | exact H].
Qed.

End LineStarts.

(** ** One pass through the loop of [get_row] *)

Lemma set_cur_pos_twice (p : PartialCsvParser) (a b : Z) :
  set_cur_pos (set_cur_pos p a) b = set_cur_pos p b.
Proof. reflexivity. Qed.

Lemma set_cur_pos_same (p : PartialCsvParser) : set_cur_pos p (cur_pos p) = p.
Proof. destruct p. reflexivity. Qed.

Lemma line_length_at_inside (cfg : CsvConfig) (c : Z) :
  0 <= c < filesize cfg ->
  line_length_at cfg c
  = Z.of_nat (line_end (content cfg) (get_line_terminator cfg) (Z.to_nat c)
              - _line_start_loop (content cfg) (get_line_terminator cfg) (Z.to_nat c)).
Proof.
  intros H. unfold line_length_at.
  now rewrite get_current_line_inside by exact H.
Qed.

(** For a line start [c], [next_line] is one past the end of its line. *)
Lemma next_line_at_start (cfg : CsvConfig) (c : Z) :
  0 <= c < filesize cfg ->
  is_line_start (content cfg) (get_line_terminator cfg) (Z.to_nat c) = true ->
  next_line cfg c
  = Z.of_nat (line_end (content cfg) (get_line_terminator cfg) (Z.to_nat c)) + 1.
Proof.
  intros H Hs. unfold next_line. rewrite line_length_at_inside by exact H.
  apply line_start_loop_fix in Hs. rewrite Hs.
  pose proof (line_end_bounds (content cfg) (get_line_terminator cfg) (Z.to_nat c)).
  unfold filesize, content in *. lia.
Qed.

(** The cursor is on the first byte of a line: the pass parses the line,
    moves the cursor past it and leaves [get_row]. *)
Lemma get_row_body_owned (p : PartialCsvParser) :
  parser_ok p ->
  cur_pos p <= parse_to p ->
  is_line_start (content (csv_config p)) (get_line_terminator (csv_config p))
    (Z.to_nat (cur_pos p)) = true ->
  get_row_body p
  = Leave (set_cur_pos p (next_line (csv_config p) (cur_pos p)))
          (row_at (csv_config p) (cur_pos p)).
Proof.
  intros (H0 & Hto & Hsize) Hle Hs.
  assert (Hin : 0 <= cur_pos p < filesize (csv_config p)) by lia.
  unfold get_row_body, row_at, next_line.
  rewrite line_length_at_inside by exact Hin.
  rewrite get_current_line_inside by exact Hin.
  apply line_start_loop_fix in Hs. rewrite Hs.
  fold (line_end (content (csv_config p)) (get_line_terminator (csv_config p))
          (Z.to_nat (cur_pos p))).
  pose proof (line_end_bounds (content (csv_config p))
                (get_line_terminator (csv_config p)) (Z.to_nat (cur_pos p))) as He.
  set (e := line_end _ _ _) in *.
  unfold filesize, content in *.
  rewrite Z2Nat.id by lia. rewrite Z.eqb_refl.
  rewrite wrap64_small by (pose proof OFF_MAX_lt; lia).
  replace (cur_pos p + (Z.of_nat (e - Z.to_nat (cur_pos p)) + 1))
    with (cur_pos p + Z.of_nat (e - Z.to_nat (cur_pos p)) + 1) by lia.
  destruct (negb _); reflexivity.
Qed.

(** The cursor is inside a line that starts before it: the pass returns the
    empty vector when the range ends in that line, and otherwise moves the
    cursor to the byte after the line's terminator and goes round again. *)
Lemma get_row_body_foreign (p : PartialCsvParser) :
  parser_ok p ->
  cur_pos p <= parse_to p ->
  is_line_start (content (csv_config p)) (get_line_terminator (csv_config p))
    (Z.to_nat (cur_pos p)) = false ->
  get_row_body p
  = if parse_to p
       <? Z.of_nat (line_end (content (csv_config p))
                      (get_line_terminator (csv_config p))
                      (Z.to_nat (cur_pos p))) + 1
    then Leave p (Return [])
    else Again (set_cur_pos p
                  (Z.of_nat (line_end (content (csv_config p))
                               (get_line_terminator (csv_config p))
                               (Z.to_nat (cur_pos p))) + 1)).
Proof.
  intros (H0 & Hto & Hsize) Hle Hs.
  assert (Hin : 0 <= cur_pos p < filesize (csv_config p)) by lia.
  unfold get_row_body.
  rewrite get_current_line_inside by exact Hin.
  fold (line_end (content (csv_config p)) (get_line_terminator (csv_config p))
          (Z.to_nat (cur_pos p))).
  pose proof (line_end_bounds (content (csv_config p))
                (get_line_terminator (csv_config p)) (Z.to_nat (cur_pos p))) as He.
  pose proof (line_start_loop_le (content (csv_config p))
                (get_line_terminator (csv_config p)) (Z.to_nat (cur_pos p))) as Hsle.
  assert (Hne : _line_start_loop (content (csv_config p))
                  (get_line_terminator (csv_config p)) (Z.to_nat (cur_pos p))
                <> Z.to_nat (cur_pos p)).
  { intros Heq. apply line_start_loop_fix in Heq. congruence. }
  set (e := line_end _ _ _) in *.
  set (s := _line_start_loop _ _ _) in *.
  unfold filesize, content in *.
  replace (cur_pos p =? Z.of_nat s) with false by (symmetry; apply Z.eqb_neq; lia).
  replace (Z.of_nat s + Z.of_nat (e - s) + 1) with (Z.of_nat e + 1) by lia.
  destruct (parse_to p <? Z.of_nat e + 1) eqn:E; [reflexivity|].
  apply Z.ltb_ge in E.
  replace (parse_to p >=? Z.of_nat e + 1) with true
    by (symmetry; apply Z.geb_le; lia).
  rewrite wrap64_small by (pose proof OFF_MAX_lt; lia).
  reflexivity.
Qed.

(** ** The lines a range owns *)

Lemma owned_lines_empty (cfg : CsvConfig) (c t : Z) :
  t < c -> owned_lines cfg c t = [].
Proof.
  intros H. unfold owned_lines.
  replace (Z.to_nat (t + 1 - c)) with O by lia. reflexivity.
Qed.

Lemma owned_lines_at_start (cfg : CsvConfig) (c t : Z) :
  0 <= c <= t -> t < filesize cfg ->
  is_line_start (content cfg) (get_line_terminator cfg) (Z.to_nat c) = true ->
  owned_lines cfg c t = c :: owned_lines cfg (next_line cfg c) t.
Proof.
  intros Hc Ht Hs. rewrite next_line_at_start by (auto; lia).
  unfold owned_lines.
  pose proof (line_end_bounds (content cfg) (get_line_terminator cfg) (Z.to_nat c)) as He.
  set (e := line_end _ _ _) in *.
  unfold filesize, content in *.
  replace (Z.to_nat (t + 1 - c)) with (S (Z.to_nat (t - c))) by lia.
  rewrite line_starts_cons by exact Hs.
  simpl map. rewrite Z2Nat.id by lia. f_equal. f_equal.
  rewrite (line_starts_skip _ _ (S (Z.to_nat c)) (S e)) by
    (try lia; intros j Hj _; apply (no_line_start_inside _ _ (Z.to_nat c)); fold e; lia).
  f_equal; lia.
Qed.

Lemma owned_lines_foreign (cfg : CsvConfig) (c t : Z) :
  0 <= c <= t -> t < filesize cfg ->
  is_line_start (content cfg) (get_line_terminator cfg) (Z.to_nat c) = false ->
  owned_lines cfg c t
  = owned_lines cfg
      (Z.of_nat (line_end (content cfg) (get_line_terminator cfg) (Z.to_nat c)) + 1) t.
Proof.
  intros Hc Ht Hs.
  unfold owned_lines.
  pose proof (line_end_bounds (content cfg) (get_line_terminator cfg) (Z.to_nat c)) as He.
  set (e := line_end _ _ _) in *.
  unfold filesize, content in *.
  f_equal.
  rewrite (line_starts_skip _ _ (Z.to_nat c) (S e)).
  - f_equal; lia.
  - lia.
  - intros j Hj _. destruct (Nat.eq_dec j (Z.to_nat c)) as [->|Hne]; [exact Hs|].
    apply (no_line_start_inside _ _ (Z.to_nat c)). fold e. lia.
Qed.

(** ** [get_row] as a function of the owned lines *)

Lemma get_row_loop_S (fuel : nat) (p : PartialCsvParser) :
  get_row_loop (S fuel) p
  = if cur_pos p <=? parse_to p then
      match get_row_body p with
      | Leave p' r => Some (p', r)
      | Again p' => get_row_loop fuel p'
      end
    else Some (p, Return []).
Proof. reflexivity. Qed.

Lemma get_row_loop_past (fuel : nat) (p : PartialCsvParser) :
  parse_to p < cur_pos p -> get_row_loop fuel p = Some (p, Return []).
Proof.
  intros H. apply Z.leb_gt in H.
  destruct fuel; simpl; rewrite H; reflexivity.
Qed.

Lemma parser_ok_set_cur_pos (p : PartialCsvParser) (c : Z) :
  parser_ok p -> 0 <= c -> parser_ok (set_cur_pos p c).
Proof. unfold parser_ok. simpl. tauto. Qed.

(** With two passes, or with as many as the distance from the cursor to the
    end of the range, the loop of [get_row] is left: with the empty vector and the
    parser unchanged when the range owns no line from the cursor on, and
    otherwise with the row of the first line it owns there and the cursor
    after that line. *)
Lemma get_row_loop_spec (p : PartialCsvParser) (fuel : nat) :
  parser_ok p ->
  (2 <= fuel \/ Z.to_nat (parse_to p + 1 - cur_pos p) <= fuel)%nat ->
  get_row_loop fuel p
  = Some match owned_lines (csv_config p) (cur_pos p) (parse_to p) with
         | [] => (p, Return [])
         | s :: _ =>
             (set_cur_pos p (next_line (csv_config p) s), row_at (csv_config p) s)
         end.
Proof.
  intros Hok Hfuel. pose proof Hok as (H0 & Hto & Hsize).
  destruct (Z.leb_spec (cur_pos p) (parse_to p)) as [Hle|Hgt].
  2:{ rewrite get_row_loop_past, owned_lines_empty by lia. reflexivity. }
  destruct fuel as [|fuel]; [lia|].
  rewrite get_row_loop_S. rewrite (proj2 (Z.leb_le _ _) Hle).
  destruct (is_line_start (content (csv_config p))
              (get_line_terminator (csv_config p)) (Z.to_nat (cur_pos p))) eqn:Hs.
  - rewrite get_row_body_owned by assumption.
    rewrite owned_lines_at_start by (auto; lia). reflexivity.
  - rewrite get_row_body_foreign by assumption.
    rewrite owned_lines_foreign by (auto; lia).
    pose proof (line_end_bounds (content (csv_config p))
                  (get_line_terminator (csv_config p)) (Z.to_nat (cur_pos p))) as He.
    pose proof (line_start_after_end (content (csv_config p))
                  (get_line_terminator (csv_config p)) (Z.to_nat (cur_pos p))) as Hafter.
    set (e := line_end _ _ _) in *.
    unfold filesize, content in Hto, He, Hafter.
    destruct (parse_to p <? Z.of_nat e + 1) eqn:E.
    + apply Z.ltb_lt in E. rewrite owned_lines_empty by lia. reflexivity.
    + apply Z.ltb_ge in E.
      assert (Hs' : is_line_start (content (csv_config p))
                      (get_line_terminator (csv_config p))
                      (Z.to_nat (Z.of_nat e + 1)) = true).
      { replace (Z.to_nat (Z.of_nat e + 1)) with (S e) by lia.
        apply Hafter; lia. }
      destruct fuel as [|fuel]; [lia|].
      rewrite get_row_loop_S. simpl cur_pos. simpl parse_to.
      rewrite (proj2 (Z.leb_le _ _) E).
      rewrite get_row_body_owned;
        [ | apply parser_ok_set_cur_pos; [exact Hok | lia] | simpl; lia | exact Hs' ].
      rewrite owned_lines_at_start by (auto; unfold filesize; lia).
      reflexivity.
Qed.

Lemma get_row_spec (p : PartialCsvParser) :
  parser_ok p ->
  get_row p
  = Some match owned_lines (csv_config p) (cur_pos p) (parse_to p) with
         | [] => (p, Return [])
         | s :: _ =>
             (set_cur_pos p (next_line (csv_config p) s), row_at (csv_config p) s)
         end.
Proof. intros Hok. apply get_row_loop_spec; [exact Hok | right; lia]. Qed.

(** The owned lines from a cursor on: none, or a first one followed by the
    lines owned from the end of that one on. *)
Lemma owned_lines_cases (cfg : CsvConfig) (c t : Z) :
  0 <= c -> t < filesize cfg ->
  owned_lines cfg c t = [] \/
  exists s,
    c <= s <= t /\
    is_line_start (content cfg) (get_line_terminator cfg) (Z.to_nat s) = true /\
    s < next_line cfg s /\
    owned_lines cfg c t = s :: owned_lines cfg (next_line cfg s) t.
Proof.
  intros H0 Ht.
  destruct (Z.leb_spec c t) as [Hle|Hgt]; [|left; apply owned_lines_empty; lia].
  assert (Hnext : forall s, 0 <= s <= t ->
            is_line_start (content cfg) (get_line_terminator cfg) (Z.to_nat s) = true ->
            s < next_line cfg s).
  { intros s Hs Hst. rewrite next_line_at_start by (auto; lia).
    pose proof (line_end_bounds (content cfg) (get_line_terminator cfg) (Z.to_nat s)).
    unfold filesize, content in *. lia. }
  destruct (is_line_start (content cfg) (get_line_terminator cfg) (Z.to_nat c)) eqn:Hs.
  - right. exists c. split; [lia|]. split; [exact Hs|].
    split; [apply Hnext; [lia | exact Hs]|].
    apply owned_lines_at_start; auto; lia.
  - rewrite owned_lines_foreign by (auto; lia).
    pose proof (line_end_bounds (content cfg) (get_line_terminator cfg) (Z.to_nat c)) as He.
    pose proof (line_start_after_end (content cfg) (get_line_terminator cfg)
                  (Z.to_nat c)) as Hafter.
    set (e := line_end _ _ _) in *.
    destruct (Z.leb_spec (Z.of_nat e + 1) t) as [Hin|Hout];
      [|left; apply owned_lines_empty; lia].
    unfold filesize, content in He, Ht, Hafter.
    assert (Hs' : is_line_start (content cfg) (get_line_terminator cfg)
                    (Z.to_nat (Z.of_nat e + 1)) = true).
    { replace (Z.to_nat (Z.of_nat e + 1)) with (S e) by lia.
      apply Hafter; lia. }
    right. exists (Z.of_nat e + 1).
    split; [lia|]. split; [exact Hs'|].
    split; [apply Hnext; [lia | exact Hs']|].
    apply owned_lines_at_start; auto; unfold filesize; lia.
Qed.

(** A row is never the empty vector, and it has as many fields as the first
    line. *)
Lemma row_at_Return (cfg : CsvConfig) (s : Z) (row : list string) :
  row_at cfg s = Return row ->
  row <> [] /\ Z.of_nat (List.length row) = get_n_columns cfg.
Proof.
  unfold row_at.
  destruct (Z.of_nat _ =? get_n_columns cfg) eqn:E; simpl; [|discriminate].
  intros H. injection H as <-.
  split; [apply split_nonempty | now apply Z.eqb_eq].
Qed.

(** ** Draining a parser *)

Lemma drain_loop_spec (fuel : nat) :
  forall p : PartialCsvParser,
    parser_ok p ->
    (Z.to_nat (parse_to p + 1 - cur_pos p) < fuel)%nat ->
    drain_loop fuel p
    = Some (map (row_at (csv_config p))
              (owned_lines (csv_config p) (cur_pos p) (parse_to p))).
Proof.
  induction fuel as [|fuel IH]; intros p Hok Hfuel; [lia|].
  pose proof Hok as (H0 & Hto & Hsize).
  simpl drain_loop. rewrite get_row_spec by exact Hok.
  destruct (owned_lines_cases (csv_config p) (cur_pos p) (parse_to p) H0 Hto)
    as [Hnone | (s & Hs & _ & Hnext & Hcons)].
  - rewrite Hnone. reflexivity.
  - rewrite Hcons. simpl map.
    specialize (IH (set_cur_pos p (next_line (csv_config p) s))).
    simpl in IH. rewrite IH;
      [ | apply parser_ok_set_cur_pos; [exact Hok | lia] | lia ].
    destruct (row_at (csv_config p) s) as [row|e] eqn:R; [|reflexivity].
    destruct row as [|f row]; [|reflexivity].
    apply row_at_Return in R. destruct R as [R _]. contradiction.
Qed.

Lemma drain_spec (p : PartialCsvParser) :
  parser_ok p ->
  drain p
  = Some (map (row_at (csv_config p))
            (owned_lines (csv_config p) (cur_pos p) (parse_to p))).
Proof. intros Hok. apply drain_loop_spec; [exact Hok | lia]. Qed.

(** ** Construction of a parser *)

Lemma body_offset_nonneg (cfg : CsvConfig) : 0 <= body_offset cfg.
Proof.
  unfold body_offset. destruct (negb (has_header_line cfg)); [lia|].
  apply wrap64_nonneg.
Qed.

Lemma sentinel_value : PARSE_TO_FILE_END = 2 ^ 64 - 1.
Proof. reflexivity. Qed.

(** Offsets given explicitly are taken as they are. *)
Lemma PartialCsvParser_new_explicit (cfg : CsvConfig) (from to : Z) :
  from <= to \/ from = body_offset cfg ->
  body_offset cfg <= from ->
  to < filesize cfg ->
  filesize cfg <= OFF_MAX ->
  PartialCsvParser_new cfg from to
  = Return {| csv_config := cfg; parse_from := from; parse_to := to; cur_pos := from |}.
Proof.
  intros Hfrom Hbody Hto Hsize. unfold PartialCsvParser_new.
  assert (Ht : (to =? PARSE_TO_FILE_END) = false).
  { apply Z.eqb_neq. rewrite sentinel_value. pose proof OFF_MAX_lt. lia. }
  rewrite Ht.
  assert (Hf : (if from =? PARSE_FROM_BODY_BEGINNING then body_offset cfg else from)
               = from).
  { destruct (from =? PARSE_FROM_BODY_BEGINNING) eqn:E; [|reflexivity].
    apply Z.eqb_eq in E. change PARSE_FROM_BODY_BEGINNING with (2 ^ 64 - 1) in E.
    pose proof OFF_MAX_lt. lia. }
  rewrite Hf. unfold ASSERT.
  rewrite (proj2 (Z.leb_le _ _) Hbody), (proj2 (Z.ltb_lt _ _) Hto).
  reflexivity.
Qed.

(** With both arguments defaulted the range is the whole body. *)
Lemma PartialCsvParser_default_whole (cfg : CsvConfig) :
  1 <= filesize cfg <= OFF_MAX ->
  PartialCsvParser_default cfg
  = Return {| csv_config := cfg;
              parse_from := body_offset cfg;
              parse_to := filesize cfg - 1;
              cur_pos := body_offset cfg |}.
Proof.
  intros Hsize. unfold PartialCsvParser_default, PartialCsvParser_new.
  rewrite !Z.eqb_refl.
  rewrite wrap64_small by (pose proof OFF_MAX_lt; lia).
  unfold ASSERT. rewrite Z.leb_refl.
  replace (filesize cfg - 1 <? filesize cfg) with true
    by (symmetry; apply Z.ltb_lt; lia).
  reflexivity.
Qed.

Lemma parse_range_spec (cfg : CsvConfig) (from to : Z) :
  from <= to \/ from = body_offset cfg ->
  body_offset cfg <= from ->
  to < filesize cfg ->
  filesize cfg <= OFF_MAX ->
  parse_range cfg (from, to)
  = Some (map (row_at cfg) (owned_lines cfg from to)).
Proof.
  intros Hfrom Hbody Hto Hsize. unfold parse_range. simpl fst. simpl snd.
  rewrite PartialCsvParser_new_explicit by assumption.
  rewrite drain_spec; [reflexivity|].
  unfold parser_ok. simpl. pose proof (body_offset_nonneg cfg). lia.
Qed.

(** ** Partitions *)

Lemma owned_lines_app (cfg : CsvConfig) (a b c : Z) :
  0 <= a -> a <= b + 1 -> b <= c ->
  owned_lines cfg a b ++ owned_lines cfg (b + 1) c = owned_lines cfg a c.
Proof.
  intros Ha Hab Hbc. unfold owned_lines. rewrite <- map_app. f_equal.
  replace (Z.to_nat (c + 1 - a))
    with (Z.to_nat (b + 1 - a) + Z.to_nat (c + 1 - (b + 1)))%nat by lia.
  rewrite line_starts_app. f_equal. f_equal. lia.
Qed.

Lemma owned_lines_partition (cfg : CsvConfig) (hi : Z) (ranges : list (Z * Z)) :
  forall lo, 0 <= lo ->
    is_partition lo hi ranges ->
    List.concat (map (fun r => owned_lines cfg (fst r) (snd r)) ranges)
    = owned_lines cfg lo (hi - 1).
Proof.
  induction ranges as [|[from to] ranges IH]; intros lo Hlo Hp; simpl in *.
  - rewrite owned_lines_empty by lia. reflexivity.
  - destruct Hp as (-> & Hle & Hlt & Hp).
    rewrite (IH (to + 1)) by (auto; lia).
    apply owned_lines_app; lia.
Qed.

Lemma owned_lines_NoDup (cfg : CsvConfig) (from to : Z) :
  NoDup (owned_lines cfg from to).
Proof.
  unfold owned_lines.
  pose proof (line_starts_NoDup (content cfg) (get_line_terminator cfg)
                (Z.to_nat from) (Z.to_nat (to + 1 - from))) as H.
  induction H as [|k l Hk Hl IH]; simpl; constructor; [|exact IH].
  rewrite in_map_iff. intros (k' & Heq & Hin).
  apply Nat2Z.inj in Heq. subst k'. contradiction.
Qed.

Lemma owned_lines_In (cfg : CsvConfig) (from to s : Z) :
  0 <= from ->
  In s (owned_lines cfg from to) <->
  from <= s <= to /\
  is_line_start (content cfg) (get_line_terminator cfg) (Z.to_nat s) = true.
Proof.
  intros Hfrom. unfold owned_lines. rewrite in_map_iff. split.
  - intros (k & <- & Hin). apply line_starts_In in Hin.
    rewrite Nat2Z.id. split; [lia | tauto].
  - intros (Hs & Hst). exists (Z.to_nat s). split; [lia|].
    apply line_starts_In. split; [lia | exact Hst].
Qed.

Lemma parse_ranges_partition (cfg : CsvConfig) (ranges : list (Z * Z)) :
  filesize cfg <= OFF_MAX ->
  forall lo, body_offset cfg <= lo ->
    is_partition lo (filesize cfg) ranges ->
    Forall2 (fun r out =>
               parse_range cfg r = Some out /\
               out = map (row_at cfg) (owned_lines cfg (fst r) (snd r)))
      ranges
      (map (fun r => map (row_at cfg) (owned_lines cfg (fst r) (snd r))) ranges).
Proof.
  intros Hsize.
  induction ranges as [|[from to] ranges IH]; intros lo Hlo Hp; simpl in *.
  - constructor.
  - destruct Hp as (-> & Hle & Hlt & Hp). constructor.
    + split; [|reflexivity]. apply parse_range_spec; auto.
    + apply (IH (to + 1)); [lia | exact Hp].
Qed.

Lemma rows_of_app (a b : list (result (list string))) :
  rows_of (a ++ b) = rows_of a ++ rows_of b.
Proof.
  induction a as [|[row|e] a IH]; simpl; [reflexivity| |exact IH].
  now rewrite IH.
Qed.

Lemma rows_of_concat (outs : list (list (result (list string)))) :
  rows_of (List.concat outs) = List.concat (map rows_of outs).
Proof.
  induction outs as [|o outs IH]; simpl; [reflexivity|].
  now rewrite rows_of_app, IH.
Qed.

Lemma partition_lower_bound (lo hi : Z) (ranges : list (Z * Z)) :
  is_partition lo hi ranges ->
  forall r, In r ranges -> lo <= fst r /\ fst r <= snd r /\ snd r < hi.
Proof.
  revert lo. induction ranges as [|[from to] ranges IH]; intros lo Hp r Hin;
    simpl in *; [contradiction|].
  destruct Hp as (-> & Hle & Hlt & Hp).
  destruct Hin as [<-|Hin]; simpl; [lia|].
  specialize (IH _ Hp r Hin). lia.
Qed.

(** C1: let the buffer be non-empty and let [ranges] cut the body, the
    bytes from [body_offset] up to the end of the file, into consecutive
    pieces, wherever the cuts fall.  Then every range can be given to a
    parser, draining the parsers gives results [outs], and: the results of
    each range are those of the lines whose first byte is in the range, in
    order; the results of a single parser over the whole body (constructed
    with these offsets or with both arguments defaulted) are the
    concatenation of [outs], and so are its rows; the lines of the body are,
    in order, the lines owned by the first range, then those owned by the
    second, and so on, and none occurs twice in that list. *)
Theorem partition_completeness (cfg : CsvConfig) (ranges : list (Z * Z)) :
  1 <= filesize cfg <= OFF_MAX ->
  is_partition (body_offset cfg) (filesize cfg) ranges ->
  exists (outs : list (list (result (list string)))) (whole : PartialCsvParser),
    Forall2 (fun r out =>
               parse_range cfg r = Some out /\
               out = map (row_at cfg) (owned_lines cfg (fst r) (snd r)))
      ranges outs /\
    parse_range cfg (body_offset cfg, filesize cfg - 1) = Some (List.concat outs) /\
    PartialCsvParser_default cfg = Return whole /\
    drain whole = Some (List.concat outs) /\
    rows_of (List.concat outs) = List.concat (map rows_of outs) /\
    List.concat (map (fun r => owned_lines cfg (fst r) (snd r)) ranges)
      = owned_lines cfg (body_offset cfg) (filesize cfg - 1) /\
    NoDup (List.concat (map (fun r => owned_lines cfg (fst r) (snd r)) ranges)) /\
    (forall s,
       In s (owned_lines cfg (body_offset cfg) (filesize cfg - 1)) <->
       body_offset cfg <= s < filesize cfg /\
       is_line_start (content cfg) (get_line_terminator cfg) (Z.to_nat s) = true) /\
    (forall r s, In r ranges ->
       (In s (owned_lines cfg (fst r) (snd r)) <->
        fst r <= s <= snd r /\
        is_line_start (content cfg) (get_line_terminator cfg) (Z.to_nat s) = true)).
Proof.
  intros Hsize Hp.
  pose proof (body_offset_nonneg cfg) as Hb.
  pose proof (owned_lines_partition cfg (filesize cfg) ranges _ Hb Hp) as Hcat.
  exists (map (fun r => map (row_at cfg) (owned_lines cfg (fst r) (snd r))) ranges).
  eexists.
  assert (Hout : List.concat (map (fun r => map (row_at cfg) (owned_lines cfg (fst r) (snd r)))
                        ranges)
                 = map (row_at cfg) (owned_lines cfg (body_offset cfg) (filesize cfg - 1))).
  { rewrite <- Hcat, concat_map, map_map. reflexivity. }
  split; [apply (parse_ranges_partition cfg ranges) with (lo := body_offset cfg); lia || auto|].
  split; [rewrite Hout; apply parse_range_spec; lia|].
  split; [apply PartialCsvParser_default_whole; exact Hsize|].
  split.
  { rewrite Hout, drain_spec; [reflexivity|]. unfold parser_ok. simpl. lia. }
  split; [apply rows_of_concat|].
  split; [exact Hcat|].
  split; [rewrite Hcat; apply owned_lines_NoDup|].
  split.
  - intros s. rewrite owned_lines_In by exact Hb. split; intros [H1 H2]; (split; [lia | exact H2]).
  - intros r s Hin. apply owned_lines_In.
    pose proof (partition_lower_bound _ _ _ Hp r Hin). lia.
Qed.

(** The split scenario of the documentation: the cut falls inside the second
    row, and the first range, which covers that row's first byte, emits it. *)
Example abc_split_scenario :
  parse_range abc_config (6, 13)
    = Some [Return ["1"; "2"; "3"]; Return ["4"; "5"; "6"]]%string /\
  parse_range abc_config (14, 17) = Some [] /\
  parse_range abc_config (6, 17)
    = Some [Return ["1"; "2"; "3"]; Return ["4"; "5"; "6"]]%string.
Proof. repeat split. Qed.

Lemma partition_completeness_witness :
  exists (outs : list (list (result (list string)))) (whole : PartialCsvParser),
    Forall2 (fun r out =>
               parse_range abc_config r = Some out /\
               out = map (row_at abc_config) (owned_lines abc_config (fst r) (snd r)))
      [(6, 13); (14, 17)] outs /\
    parse_range abc_config (body_offset abc_config, filesize abc_config - 1)
      = Some (List.concat outs) /\
    PartialCsvParser_default abc_config = Return whole /\
    drain whole = Some (List.concat outs) /\
    rows_of (List.concat outs) = List.concat (map rows_of outs) /\
    List.concat (map (fun r => owned_lines abc_config (fst r) (snd r)) [(6, 13); (14, 17)])
      = owned_lines abc_config (body_offset abc_config) (filesize abc_config - 1) /\
    NoDup (List.concat (map (fun r => owned_lines abc_config (fst r) (snd r))
                          [(6, 13); (14, 17)])) /\
    (forall s,
       In s (owned_lines abc_config (body_offset abc_config) (filesize abc_config - 1)) <->
       body_offset abc_config <= s < filesize abc_config /\
       is_line_start (content abc_config) (get_line_terminator abc_config)
         (Z.to_nat s) = true) /\
    (forall r s, In r [(6, 13); (14, 17)] ->
       (In s (owned_lines abc_config (fst r) (snd r)) <->
        fst r <= s <= snd r /\
        is_line_start (content abc_config) (get_line_terminator abc_config)
          (Z.to_nat s) = true)).
Proof.
  apply (partition_completeness abc_config [(6, 13); (14, 17)]).
  - vm_compute. split; discriminate.
  - vm_compute. repeat split; discriminate.
Defined.

(** ** Empty ranges *)

(** C7: a range whose first offset is after its last one, as the defaults
    give for a file that only has a header, is accepted by the constructor
    as long as the two asserted bounds hold; [get_row] on the new parser
    returns the empty vector and leaves the parser as it is, and it does so
    without a single pass through its loop, the only place where the buffer
    is read. *)
Theorem empty_range_accepted (cfg : CsvConfig) (from to : Z) :
  let this_from :=
    if from =? PARSE_FROM_BODY_BEGINNING then body_offset cfg else from in
  let this_to :=
    if to =? PARSE_TO_FILE_END then wrap64 (filesize cfg - 1) else to in
  body_offset cfg <= this_from ->
  this_to < filesize cfg ->
  this_to < this_from ->
  exists p,
    PartialCsvParser_new cfg from to = Return p /\
    cur_pos p = this_from /\ parse_to p = this_to /\
    get_row p = Some (p, Return []) /\
    get_row_loop 0 p = Some (p, Return []) /\
    forall n, get_row_after n p = Some (p, Return []).
Proof.
  intros this_from this_to Hbody Hto Hempty.
  exists {| csv_config := cfg; parse_from := this_from;
            parse_to := this_to; cur_pos := this_from |}.
  split.
  { unfold PartialCsvParser_new, ASSERT. fold this_from. fold this_to.
    rewrite (proj2 (Z.leb_le _ _) Hbody), (proj2 (Z.ltb_lt _ _) Hto).
    reflexivity. }
  split; [reflexivity|]. split; [reflexivity|].
  assert (Hrow : forall fuel,
            get_row_loop fuel {| csv_config := cfg; parse_from := this_from;
                                 parse_to := this_to; cur_pos := this_from |}
            = Some ({| csv_config := cfg; parse_from := this_from;
                       parse_to := this_to; cur_pos := this_from |}, Return []))
    by (intros fuel; apply get_row_loop_past; exact Hempty).
  split; [apply Hrow|]. split; [apply Hrow|].
  induction n as [|n IH]; simpl; unfold get_row; rewrite Hrow; [reflexivity|].
  exact IH.
Qed.

(** The file ["a,b"]: a header without terminator, so that the body starts
    at offset 4, after the last byte, and the defaults give the range 4..2. *)
Lemma empty_range_accepted_witness :
  exists p,
    PartialCsvParser_new header_only_config PARSE_FROM_BODY_BEGINNING PARSE_TO_FILE_END
      = Return p /\
    cur_pos p = 4 /\ parse_to p = 2 /\
    get_row p = Some (p, Return []) /\
    get_row_loop 0 p = Some (p, Return []) /\
    forall n, get_row_after n p = Some (p, Return []).
Proof.
  apply (empty_range_accepted header_only_config
           PARSE_FROM_BODY_BEGINNING PARSE_TO_FILE_END).
  - vm_compute. discriminate.
  - reflexivity.
  - reflexivity.
Defined.

(** ** What a pass can leave with *)

Lemma get_row_body_cases (p : PartialCsvParser) :
  match get_row_body p with
  | Leave p' (Return row) =>
      (row = [] /\ p' = p) \/
      (row <> [] /\ Z.of_nat (List.length row) = get_n_columns (csv_config p) /\
       csv_config p' = csv_config p)
  | Leave p' (Throw _) => csv_config p' = csv_config p
  | Again p' => csv_config p' = csv_config p
  end.
Proof.
  unfold get_row_body.
  destruct (_get_current_line _ _ _) as [[line line_length]|e]; [|reflexivity].
  destruct (cur_pos p =? line).
  - destruct (Z.of_nat _ =? get_n_columns (csv_config p)) eqn:E; simpl; [|reflexivity].
    right. split; [apply split_nonempty|]. split; [now apply Z.eqb_eq | reflexivity].
  - destruct (parse_to p <? _); [left; split; reflexivity|].
    destruct (parse_to p >=? _); reflexivity.
Qed.

Lemma get_row_loop_row_length (fuel : nat) :
  forall p p' row,
    get_row_loop fuel p = Some (p', Return row) ->
    row <> [] ->
    Z.of_nat (List.length row) = get_n_columns (csv_config p).
Proof.
  induction fuel as [|fuel IH]; intros p p' row H Hrow.
  - simpl in H. destruct (cur_pos p <=? parse_to p); [discriminate|].
    injection H as _ <-. contradiction.
  - rewrite get_row_loop_S in H.
    destruct (cur_pos p <=? parse_to p);
      [|injection H as _ <-; contradiction].
    pose proof (get_row_body_cases p) as Hb.
    destruct (get_row_body p) as [p1 r|p1].
    + injection H as -> ->.
      destruct Hb as [[-> _]|(_ & Hlen & _)]; [contradiction | exact Hlen].
    + rewrite <- Hb. apply (IH p1 p' row H Hrow).
Qed.

(** The call that returns the empty vector leaves a parser on which the
    next call returns it again. *)
Lemma get_row_loop_empty_again (fuel : nat) :
  forall p p',
    get_row_loop fuel p = Some (p', Return []) ->
    get_row p' = Some (p', Return []).
Proof.
  induction fuel as [|fuel IH]; intros p p' H.
  - simpl in H. destruct (cur_pos p <=? parse_to p) eqn:E; [discriminate|].
    injection H as <-. apply get_row_loop_past. now apply Z.leb_gt.
  - rewrite get_row_loop_S in H.
    destruct (cur_pos p <=? parse_to p) eqn:E.
    + pose proof (get_row_body_cases p) as Hb.
      destruct (get_row_body p) as [p1 r|p1] eqn:B.
      * injection H as -> ->.
        destruct Hb as [[_ ->]|(Hne & _)]; [|contradiction].
        unfold get_row. apply Z.leb_le in E.
        replace (Z.to_nat (parse_to p + 1 - cur_pos p))
          with (S (Z.to_nat (parse_to p - cur_pos p))) by lia.
        rewrite get_row_loop_S, (proj2 (Z.leb_le _ _) E), B. reflexivity.
      * apply (IH p1 p' H).
    + injection H as <-. apply get_row_loop_past. now apply Z.leb_gt.
Qed.

(** C6: when a call of [get_row] has returned the empty vector, every later
    call on that parser returns the empty vector too (and leaves the parser
    as it is). *)
Theorem exhaustion_is_final (p p' : PartialCsvParser) :
  get_row p = Some (p', Return []) ->
  forall n, get_row_after n p' = Some (p', Return []).
Proof.
  intros H. apply get_row_loop_empty_again in H.
  induction n as [|n IH]; simpl; rewrite H; [reflexivity | exact IH].
Qed.

(** The second range of the split scenario: its first call already returns
    the empty vector. *)
Lemma exhaustion_is_final_witness :
  get_row_after 0
    {| csv_config := abc_config; parse_from := 14; parse_to := 17; cur_pos := 14 |}
  = Some ({| csv_config := abc_config; parse_from := 14; parse_to := 17;
             cur_pos := 14 |}, Return []) /\
  get_row_after 5
    {| csv_config := abc_config; parse_from := 14; parse_to := 17; cur_pos := 14 |}
  = Some ({| csv_config := abc_config; parse_from := 14; parse_to := 17;
             cur_pos := 14 |}, Return []).
Proof.
  split;
    apply (exhaustion_is_final
             {| csv_config := abc_config; parse_from := 14; parse_to := 17; cur_pos := 14 |});
    reflexivity.
Defined.

(** ** Lines with the wrong number of fields *)

Lemma append_assoc (a b c : string) : ((a ++ b) ++ c = a ++ (b ++ c))%string.
Proof. induction a as [|x a IH]; simpl; [reflexivity | now rewrite IH]. Qed.

Lemma mismatch_message_ends_with_line (n m : Z) (line : string) :
  exists prefix : string, mismatch_message n m line = (prefix ++ line)%string.
Proof.
  exists ("The following line has " ++ show_size n
          ++ " columns, while the first line has " ++ show_size m
          ++ " columns." ++ String "010" EmptyString)%string.
  unfold mismatch_message. rewrite !append_assoc. reflexivity.
Qed.

(** Offsets before the first line start can be dropped from the front of a
    range. *)
Lemma owned_lines_skip_to (cfg : CsvConfig) (c s t : Z) :
  0 <= c <= s ->
  (forall j : Z, c <= j < s ->
     is_line_start (content cfg) (get_line_terminator cfg) (Z.to_nat j) = false) ->
  owned_lines cfg c t = owned_lines cfg s t.
Proof.
  intros Hc Hnone. unfold owned_lines. f_equal.
  rewrite (line_starts_skip _ _ (Z.to_nat c) (Z.to_nat s)).
  - f_equal. lia.
  - lia.
  - intros j Hj _. specialize (Hnone (Z.of_nat j)).
    rewrite Nat2Z.id in Hnone. apply Hnone. lia.
Qed.

(** The first owned line is the first line start from the cursor on. *)
Lemma owned_lines_first (cfg : CsvConfig) (c t s : Z) (rest : list Z) :
  0 <= c -> t < filesize cfg ->
  owned_lines cfg c t = s :: rest ->
  forall j : Z, c <= j < s ->
    is_line_start (content cfg) (get_line_terminator cfg) (Z.to_nat j) = false.
Proof.
  intros Hc Ht Hown j Hj.
  destruct (is_line_start _ _ (Z.to_nat j)) eqn:E; [|reflexivity].
  exfalso.
  destruct (owned_lines_cases cfg c t Hc Ht)
    as [Hnone | (s' & Hs & _ & Hnext & Hcons)]; [congruence|].
  rewrite Hcons in Hown. injection Hown as -> _.
  assert (Hin : In j (owned_lines cfg c t))
    by (apply owned_lines_In; [exact Hc | split; [lia | exact E]]).
  rewrite Hcons in Hin. destruct Hin as [Heq|Hin]; [lia|].
  apply owned_lines_In in Hin; lia.
Qed.

(** C4: when [get_row] comes to the first byte of a line whose number of
    fields is not the column count of the configuration, the call throws a
    [PCPCsvError] whose message ends with the bytes of that line, and
    returns no row (the error takes the place of the result).  This holds of
    the pass that finds the cursor on such a line, of the call that starts
    there, and of the call that starts inside a line owned by another range
    and skips to such a line: whenever the first line start from the cursor
    on, inside the range, is that of a line with the wrong number of fields,
    the call throws, with the cursor left just after that line.  And a row
    that [get_row] returns has exactly as many fields as the column
    count. *)
Theorem column_mismatch_is_error (p : PartialCsvParser) :
  (forall line line_length : Z,
     cur_pos p <= parse_to p ->
     _get_current_line (content (csv_config p)) (cur_pos p)
       (get_line_terminator (csv_config p)) = Return (line, line_length) ->
     cur_pos p = line ->
     Z.of_nat (List.length
                 (_split (span (content (csv_config p)) (Z.to_nat line)
                            (Z.to_nat line_length))
                    (get_field_terminator (csv_config p))))
       <> get_n_columns (csv_config p) ->
     exists (p' : PartialCsvParser) (prefix : string),
       get_row_body p
         = Leave p' (Throw (PCPCsvError
             (prefix ++ std_string (content (csv_config p)) (Z.to_nat line)
                          (Z.to_nat line_length)))) /\
       get_row p
         = Some (p', Throw (PCPCsvError
             (prefix ++ std_string (content (csv_config p)) (Z.to_nat line)
                          (Z.to_nat line_length))))) /\
  (forall (p' : PartialCsvParser) (row : list string),
     get_row p = Some (p', Return row) ->
     row <> [] ->
     Z.of_nat (List.length row) = get_n_columns (csv_config p)) /\
  (forall line line_length : Z,
     parser_ok p ->
     cur_pos p <= line <= parse_to p ->
     is_line_start (content (csv_config p)) (get_line_terminator (csv_config p))
       (Z.to_nat line) = true ->
     (forall j : Z, cur_pos p <= j < line ->
        is_line_start (content (csv_config p)) (get_line_terminator (csv_config p))
          (Z.to_nat j) = false) ->
     _get_current_line (content (csv_config p)) line
       (get_line_terminator (csv_config p)) = Return (line, line_length) ->
     Z.of_nat (List.length
                 (_split (span (content (csv_config p)) (Z.to_nat line)
                            (Z.to_nat line_length))
                    (get_field_terminator (csv_config p))))
       <> get_n_columns (csv_config p) ->
     exists prefix : string,
       get_row p
       = Some (set_cur_pos p (line + line_length + 1),
               Throw (PCPCsvError
                 (prefix ++ std_string (content (csv_config p)) (Z.to_nat line)
                              (Z.to_nat line_length))))).
Proof.
  split; [|split].
  - intros line line_length Hle Hline Hcur Hcount.
    destruct (mismatch_message_ends_with_line
                (Z.of_nat (List.length
                   (_split (span (content (csv_config p)) (Z.to_nat line)
                              (Z.to_nat line_length))
                      (get_field_terminator (csv_config p)))))
                (get_n_columns (csv_config p))
                (std_string (content (csv_config p)) (Z.to_nat line)
                   (Z.to_nat line_length))) as [prefix Hmsg].
    exists (set_cur_pos p (wrap64 (cur_pos p + (line_length + 1)))), prefix.
    assert (Hbody : get_row_body p
              = Leave (set_cur_pos p (wrap64 (cur_pos p + (line_length + 1))))
                  (Throw (PCPCsvError
                     (prefix ++ std_string (content (csv_config p)) (Z.to_nat line)
                                  (Z.to_nat line_length))))).
    { unfold get_row_body. rewrite Hline.
      rewrite (proj2 (Z.eqb_eq _ _) Hcur).
      rewrite (proj2 (Z.eqb_neq _ _) Hcount). simpl negb. cbv iota.
      rewrite Hmsg. reflexivity. }
    split; [exact Hbody|].
    unfold get_row.
    replace (Z.to_nat (parse_to p + 1 - cur_pos p))
      with (S (Z.to_nat (parse_to p - cur_pos p))) by lia.
    rewrite get_row_loop_S, (proj2 (Z.leb_le _ _) Hle), Hbody. reflexivity.
  - intros p' row H Hrow. exact (get_row_loop_row_length _ _ _ _ H Hrow).
  - intros line line_length Hok Hin Hstart Hfirst Hline Hcount.
    pose proof Hok as (H0 & Hto & Hsize).
    destruct (mismatch_message_ends_with_line
                (Z.of_nat (List.length
                   (_split (span (content (csv_config p)) (Z.to_nat line)
                              (Z.to_nat line_length))
                      (get_field_terminator (csv_config p)))))
                (get_n_columns (csv_config p))
                (std_string (content (csv_config p)) (Z.to_nat line)
                   (Z.to_nat line_length))) as [prefix Hmsg].
    exists prefix.
    rewrite get_row_spec by exact Hok.
    rewrite (owned_lines_skip_to _ _ line) by (exact Hfirst || lia).
    rewrite owned_lines_at_start by (exact Hstart || lia).
    assert (Hlen : line_length_at (csv_config p) line = line_length)
      by (unfold line_length_at; now rewrite Hline).
    unfold next_line, row_at. rewrite Hlen.
    rewrite (proj2 (Z.eqb_neq _ _) Hcount). simpl negb. cbv iota.
    rewrite Hmsg. reflexivity.
Qed.

(** The ragged file: a call that starts on its second line, which has one
    field, and a call that starts inside its first line and skips to the
    second; and the first row of the file of the scenario. *)
Lemma column_mismatch_is_error_witness :
  (exists (p' : PartialCsvParser) (prefix : string),
     get_row {| csv_config := ragged_config; parse_from := 0; parse_to := 8;
                cur_pos := 4 |}
     = Some (p', Throw (PCPCsvError (prefix ++ "1")))) /\
  Z.of_nat (List.length ["1"; "2"; "3"]%string) = get_n_columns abc_config /\
  (exists prefix : string,
     get_row {| csv_config := ragged_config; parse_from := 1; parse_to := 8;
                cur_pos := 1 |}
     = Some ({| csv_config := ragged_config; parse_from := 1; parse_to := 8;
                cur_pos := 6 |},
             Throw (PCPCsvError (prefix ++ "1")))).
Proof.
  split; [|split].
  - destruct (column_mismatch_is_error
                {| csv_config := ragged_config; parse_from := 0; parse_to := 8;
                   cur_pos := 4 |}) as [H _].
    destruct (H 4 1) as (p' & prefix & _ & Hrow).
    + vm_compute. discriminate.
    + reflexivity.
    + reflexivity.
    + vm_compute. discriminate.
    + exists p', prefix. exact Hrow.
  - destruct (column_mismatch_is_error
                {| csv_config := abc_config; parse_from := 6; parse_to := 17;
                   cur_pos := 6 |}) as (_ & H & _).
    apply (H {| csv_config := abc_config; parse_from := 6; parse_to := 17;
                cur_pos := 12 |}).
    + reflexivity.
    + discriminate.
  - destruct (column_mismatch_is_error
                {| csv_config := ragged_config; parse_from := 1; parse_to := 8;
                   cur_pos := 1 |}) as (_ & _ & H).
    destruct (H 4 1) as [prefix Hrow].
    + vm_compute. repeat split; discriminate.
    + vm_compute. split; discriminate.
    + reflexivity.
    + intros j Hj.
      assert (Hcases : j = 1 \/ j = 2 \/ j = 3) by (simpl in Hj; lia).
      destruct Hcases as [ -> | [ -> | -> ] ]; reflexivity.
    + reflexivity.
    + vm_compute. discriminate.
    + exists prefix. exact Hrow.
Defined.

(** ** Termination of [get_row] *)

(** A pass that goes round again was on a line that starts before the
    cursor, and it puts the cursor just after that line. *)
Lemma get_row_body_Again (p p' : PartialCsvParser) :
  parser_ok p ->
  cur_pos p <= parse_to p ->
  get_row_body p = Again p' ->
  exists line line_length : Z,
    _get_current_line (content (csv_config p)) (cur_pos p)
      (get_line_terminator (csv_config p)) = Return (line, line_length) /\
    line < cur_pos p <= line + line_length /\
    p' = set_cur_pos p (line + line_length + 1) /\
    line + line_length + 1 <= parse_to p.
Proof.
  intros Hok Hle Hbody. pose proof Hok as (H0 & Hto & Hsize).
  destruct (is_line_start (content (csv_config p))
              (get_line_terminator (csv_config p)) (Z.to_nat (cur_pos p))) eqn:Hs.
  { rewrite get_row_body_owned in Hbody by assumption. discriminate. }
  rewrite get_row_body_foreign in Hbody by assumption.
  pose proof (line_end_bounds (content (csv_config p))
                (get_line_terminator (csv_config p)) (Z.to_nat (cur_pos p))) as He.
  pose proof (line_start_loop_le (content (csv_config p))
                (get_line_terminator (csv_config p)) (Z.to_nat (cur_pos p))) as Hsle.
  assert (Hne : _line_start_loop (content (csv_config p))
                  (get_line_terminator (csv_config p)) (Z.to_nat (cur_pos p))
                <> Z.to_nat (cur_pos p)).
  { intros Heq. apply line_start_loop_fix in Heq. congruence. }
  exists (Z.of_nat (_line_start_loop (content (csv_config p))
                      (get_line_terminator (csv_config p)) (Z.to_nat (cur_pos p)))),
    (Z.of_nat (line_end (content (csv_config p))
                 (get_line_terminator (csv_config p)) (Z.to_nat (cur_pos p))
               - _line_start_loop (content (csv_config p))
                   (get_line_terminator (csv_config p)) (Z.to_nat (cur_pos p)))).
  split; [apply get_current_line_inside; unfold filesize, content in *; lia|].
  set (e := line_end _ _ _) in *.
  set (s := _line_start_loop _ _ _) in *.
  unfold filesize, content in Hto, He.
  replace (Z.of_nat s + Z.of_nat (e - s)) with (Z.of_nat e) by lia.
  destruct (parse_to p <? Z.of_nat e + 1) eqn:E; [discriminate|].
  apply Z.ltb_ge in E. injection Hbody as <-.
  split; [lia|]. split; [reflexivity | exact E].
Qed.

(** What C9 says of a pass that does not return: that the cursor grows by
    the length of the skipped line plus one.  In the file of the scenario,
    with the cursor at offset 8 inside the line ["1,2,3"] (offset 6, length
    5), the pass moves the cursor to 12: it grows by 4, not by 6. *)
Lemma skip_adds_line_length_counterexample :
  ~ (forall (p p' : PartialCsvParser) (line line_length : Z),
       parser_ok p ->
       cur_pos p <= parse_to p ->
       _get_current_line (content (csv_config p)) (cur_pos p)
         (get_line_terminator (csv_config p)) = Return (line, line_length) ->
       get_row_body p = Again p' ->
       cur_pos p' = cur_pos p + (line_length + 1)).
Proof.
  intros H.
  specialize (H {| csv_config := abc_config; parse_from := 8; parse_to := 17;
                   cur_pos := 8 |}
                {| csv_config := abc_config; parse_from := 8; parse_to := 17;
                   cur_pos := 12 |}
                6 5).
  simpl in H. assert (C : 12 = 8 + (5 + 1)); [|discriminate C].
  apply H.
  - vm_compute. repeat split; discriminate.
  - discriminate.
  - reflexivity.
  - reflexivity.
Qed.

(** C9, amended: every call of [get_row] terminates, after at most two
    passes through its loop.  A pass either leaves the loop or moves the
    cursor forward, by at least one byte, to the offset just after the
    terminator of the line it was in (the start of that line plus its
    length plus one), which is still inside the range; the loop is left
    without a pass once the cursor is past [parse_to]; and [parse_to] is less
    than the length of the buffer, for the parser at hand and for every
    parser the constructor returns. *)
Theorem get_row_terminates (p : PartialCsvParser) :
  parser_ok p ->
  (exists (p' : PartialCsvParser) (r : result (list string)),
     get_row p = Some (p', r) /\
     parser_ok p' /\
     cur_pos p <= cur_pos p' /\
     forall fuel : nat,
       (2 <= fuel \/ Z.to_nat (parse_to p + 1 - cur_pos p) <= fuel)%nat ->
       get_row_loop fuel p = Some (p', r)) /\
  (forall p' : PartialCsvParser,
     cur_pos p <= parse_to p ->
     get_row_body p = Again p' ->
     exists line line_length : Z,
       _get_current_line (content (csv_config p)) (cur_pos p)
         (get_line_terminator (csv_config p)) = Return (line, line_length) /\
       line < cur_pos p <= line + line_length /\
       cur_pos p' = line + line_length + 1 /\
       cur_pos p < cur_pos p' <= parse_to p /\
       parser_ok p') /\
  (parse_to p < cur_pos p ->
   forall fuel : nat, get_row_loop fuel p = Some (p, Return [])) /\
  parse_to p < filesize (csv_config p) /\
  (forall (cfg : CsvConfig) (from to : Z) (q : PartialCsvParser),
     PartialCsvParser_new cfg from to = Return q ->
     parse_to q < filesize (csv_config q)).
Proof.
  intros Hok. pose proof Hok as (H0 & Hto & Hsize).
  split; [|split; [|split; [|split]]].
  - destruct (owned_lines_cases (csv_config p) (cur_pos p) (parse_to p) H0 Hto)
      as [Hnone | (s & Hs & _ & Hnext & Hcons)].
    + exists p, (Return []).
      split; [rewrite get_row_spec, Hnone by exact Hok; reflexivity|].
      split; [exact Hok|]. split; [lia|].
      intros fuel Hfuel. rewrite get_row_loop_spec, Hnone by assumption. reflexivity.
    + exists (set_cur_pos p (next_line (csv_config p) s)), (row_at (csv_config p) s).
      split; [rewrite get_row_spec, Hcons by exact Hok; reflexivity|].
      split; [apply parser_ok_set_cur_pos; [exact Hok | lia]|].
      split; [simpl; lia|].
      intros fuel Hfuel. rewrite get_row_loop_spec, Hcons by assumption. reflexivity.
  - intros p' Hle Hbody.
    destruct (get_row_body_Again p p' Hok Hle Hbody)
      as (line & line_length & Hline & Hin & -> & Hend).
    exists line, line_length.
    split; [exact Hline|]. split; [exact Hin|]. split; [reflexivity|].
    split; [simpl; lia|]. apply parser_ok_set_cur_pos; [exact Hok | lia].
  - intros Hpast fuel. apply get_row_loop_past. exact Hpast.
  - exact Hto.
  - intros cfg from to q. unfold PartialCsvParser_new, ASSERT.
    destruct (body_offset cfg <=? _); [|discriminate].
    simpl bind.
    destruct (_ <? filesize cfg) eqn:E; [|discriminate].
    intros H. injection H as <-. simpl. now apply Z.ltb_lt.
Qed.

(** The parser of the counterexample: its call takes two passes. *)
Lemma get_row_terminates_witness :
  exists (p' : PartialCsvParser) (r : result (list string)),
    get_row {| csv_config := abc_config; parse_from := 8; parse_to := 17;
               cur_pos := 8 |} = Some (p', r) /\
    cur_pos p' = 18 /\ r = Return ["4"; "5"; "6"]%string.
Proof.
  destruct (get_row_terminates
              {| csv_config := abc_config; parse_from := 8; parse_to := 17;
                 cur_pos := 8 |}) as [(p' & r & Hrow & _) _].
  - vm_compute. repeat split; discriminate.
  - exists p', r. split; [exact Hrow|].
    vm_compute in Hrow. injection Hrow as <- <-. split; reflexivity.
Defined.

(** ** The cursor after an error *)

(** C10: when [get_row] throws a [PCPCsvError], the line at fault is the
    first line [s] the range owns from the cursor on, and the parser has
    changed: its cursor is now just after that line, at [s] plus the length
    of the line plus one.  The call that follows does not see that line
    again; it gives the next line the range owns, or the empty vector when
    there is none. *)
Theorem mismatch_error_advances_cursor (p p' : PartialCsvParser) (msg : string) :
  parser_ok p ->
  get_row p = Some (p', Throw (PCPCsvError msg)) ->
  exists (s : Z) (rest : list Z),
    owned_lines (csv_config p) (cur_pos p) (parse_to p) = s :: rest /\
    cur_pos p <= s <= parse_to p /\
    row_at (csv_config p) s = Throw (PCPCsvError msg) /\
    p' = set_cur_pos p (s + line_length_at (csv_config p) s + 1) /\
    cur_pos p < cur_pos p' /\
    rest = owned_lines (csv_config p) (cur_pos p') (parse_to p) /\
    Forall (fun s' => s < s') rest /\
    get_row p'
    = Some match rest with
           | [] => (p', Return [])
           | s' :: _ =>
               (set_cur_pos p' (next_line (csv_config p) s'),
                row_at (csv_config p) s')
           end.
Proof.
  intros Hok Hrow. pose proof Hok as (H0 & Hto & Hsize).
  rewrite get_row_spec in Hrow by exact Hok.
  destruct (owned_lines_cases (csv_config p) (cur_pos p) (parse_to p) H0 Hto)
    as [Hnone | (s & Hs & _ & Hnext & Hcons)].
  { rewrite Hnone in Hrow. discriminate. }
  rewrite Hcons in Hrow. injection Hrow as <- Hrow.
  exists s, (owned_lines (csv_config p) (next_line (csv_config p) s) (parse_to p)).
  split; [exact Hcons|]. split; [exact Hs|]. split; [exact Hrow|].
  split; [reflexivity|]. split; [simpl; lia|]. split; [reflexivity|].
  split.
  - apply Forall_forall. intros s' Hin.
    apply owned_lines_In in Hin; lia.
  - rewrite get_row_spec
      by (apply parser_ok_set_cur_pos; [exact Hok | lia]).
    reflexivity.
Qed.

(** The ragged file: the call on its second line throws, and the next call
    returns the third line. *)
Lemma mismatch_error_advances_cursor_witness :
  exists (s : Z) (rest : list Z),
    owned_lines ragged_config 4 8 = s :: rest /\
    s = 4 /\ rest = [6] /\
    get_row {| csv_config := ragged_config; parse_from := 0; parse_to := 8;
               cur_pos := 6 |}
    = Some ({| csv_config := ragged_config; parse_from := 0; parse_to := 8;
               cur_pos := 10 |}, Return ["4"; "5"]%string).
Proof.
  destruct (mismatch_error_advances_cursor
              {| csv_config := ragged_config; parse_from := 0; parse_to := 8;
                 cur_pos := 4 |}
              {| csv_config := ragged_config; parse_from := 0; parse_to := 8;
                 cur_pos := 6 |}
              (mismatch_message 1 2 "1"))
    as (s & rest & Hown & _ & _ & _ & _ & _ & _ & Hnext).
  - vm_compute. repeat split; discriminate.
  - reflexivity.
  - exists s, rest. split; [exact Hown|].
    vm_compute in Hown. injection Hown as <- <-.
    split; [reflexivity|]. split; [reflexivity|]. exact Hnext.
Defined.

(** * Further properties *)

(** ** [_split] and [join] *)

Lemma split_from_app_delimiter (d : ascii) (a b cur : list ascii) :
  split_from d cur (a ++ d :: b) = split_from d cur a ++ split_from d [] b.
Proof.
  revert cur. induction a as [|c a IH]; intros cur; simpl.
  - now rewrite Ascii.eqb_refl.
  - destruct (Ascii.eqb c d); [simpl; f_equal|]; apply IH.
Qed.

Lemma split_from_app_clean (d : ascii) (f rest cur : list ascii) :
  ~ In d f -> split_from d cur (f ++ rest) = split_from d (cur ++ f) rest.
Proof.
  revert cur. induction f as [|c f IH]; intros cur Hf; simpl.
  - now rewrite app_nil_r.
  - replace (Ascii.eqb c d) with false
      by (symmetry; apply Ascii.eqb_neq; intros ->; apply Hf; now left).
    rewrite IH by (intros Hin; apply Hf; now right).
    now rewrite <- app_assoc.
Qed.

(** X1: splitting distributes over a delimiter: the fields of [a], the
    delimiter and [b] are the fields of [a] followed by the fields of [b]. *)
Theorem split_at_delimiter (a b : list ascii) (delimiter : ascii) :
  _split (a ++ delimiter :: b) delimiter = _split a delimiter ++ _split b delimiter.
Proof. rewrite !split_as_split_from. apply split_from_app_delimiter. Qed.

Lemma split_clean_field (f : string) (d : ascii) :
  ~ In d (list_ascii_of_string f) -> _split (list_ascii_of_string f) d = [f].
Proof.
  intros Hf. rewrite split_as_split_from.
  rewrite <- (app_nil_r (list_ascii_of_string f)).
  rewrite split_from_app_clean by exact Hf. simpl.
  now rewrite string_of_list_ascii_of_string.
Qed.

(** X2: [_split] undoes [join]: when no field holds the delimiter, splitting
    the joined fields gives the fields back (for at least one field; no
    input splits into no field at all). *)
Theorem split_join (fields : list string) (delimiter : ascii) :
  fields <> [] ->
  Forall (fun f => ~ In delimiter (list_ascii_of_string f)) fields ->
  _split (join delimiter fields) delimiter = fields.
Proof.
  intros Hne Hclean.
  induction fields as [|f rest IH]; [contradiction|].
  inversion Hclean as [|? ? Hf Hrest]; subst.
  destruct rest as [|g rest].
  - simpl. apply split_clean_field. exact Hf.
  - change (join delimiter (f :: g :: rest))
      with (list_ascii_of_string f ++ delimiter :: join delimiter (g :: rest)).
    rewrite split_as_split_from, split_from_app_delimiter, <- !split_as_split_from.
    rewrite split_clean_field by exact Hf.
    rewrite IH by (discriminate || exact Hrest). reflexivity.
Qed.

Lemma split_join_witness :
  _split (join "," ["a"; EmptyString; "b"]%string) "," = ["a"; EmptyString; "b"]%string.
Proof.
  apply (split_join ["a"; EmptyString; "b"]%string ",").
  - discriminate.
  - repeat constructor; simpl; intuition discriminate.
Defined.

(** ** Lines of a buffer *)

Section LineUnique.

Variable text : list ascii.
Variable lt : ascii.

(** The backward loop stops at the line start that has no terminator
    between it and the position. *)
Lemma line_start_loop_unique (a q : nat) :
  (a <= q)%nat ->
  is_line_start text lt a = true ->
  (forall j, (a <= j < q)%nat -> Ascii.eqb (deref text j) lt = false) ->
  _line_start_loop text lt q = a.
Proof.
  induction q as [|q IH]; intros Haq Ha Hclear; simpl; [lia|].
  destruct (Nat.eq_dec a (S q)) as [->|Hne].
  - simpl in Ha. now rewrite Ha.
  - rewrite Hclear by lia. apply IH; [lia | exact Ha |].
    intros j Hj. apply Hclear. lia.
Qed.

(** The forward loop stops at the first terminator, or at the end. *)
Lemma line_end_loop_unique (n : nat) :
  forall q e : nat,
    (q + n = List.length text)%nat ->
    (q <= e <= List.length text)%nat ->
    (forall j, (q <= j < e)%nat -> Ascii.eqb (deref text j) lt = false) ->
    e = List.length text \/ Ascii.eqb (deref text e) lt = true ->
    _line_end_loop text lt n q = e.
Proof.
  induction n as [|n IH]; intros q e Hn He Hclear Hstop; simpl; [lia|].
  destruct (Ascii.eqb (deref text q) lt) eqn:E.
  - destruct (Nat.eq_dec q e) as [Heq|Hne]; [exact Heq|].
    rewrite Hclear in E by lia. discriminate.
  - apply IH; try lia.
    + destruct (Nat.eq_dec q e) as [->|Hne]; [|lia].
      destruct Hstop as [Hend|Hterm]; [lia | congruence].
    + intros j Hj. apply Hclear. lia.
    + exact Hstop.
Qed.

End LineUnique.

Lemma get_current_line_Return (text : list ascii) (lt : ascii) (pos s l : Z) :
  _get_current_line text pos lt = Return (s, l) ->
  0 <= pos < Z.of_nat (List.length text).
Proof.
  unfold _get_current_line, ASSERT.
  destruct (1 <=? Z.of_nat (List.length text)) eqn:E1; [|discriminate].
  destruct (0 <=? pos) eqn:E2; [|discriminate].
  destruct (pos <=? Z.of_nat (List.length text) - 1) eqn:E3; [|discriminate].
  intros _. apply Z.leb_le in E2, E3. lia.
Qed.

(** X3: the lines [_get_current_line] finds tile the buffer.  When it
    returns the line [(line, len)] for some position, it returns the same
    line for every position of that line and for the position of its
    terminator; and when bytes follow the terminator, the position after it
    is found to be the first byte of its own line. *)
Theorem get_current_line_same_line (text : list ascii) (lt : ascii)
    (position line len : Z) :
  _get_current_line text position lt = Return (line, len) ->
  (forall q : Z,
     line <= q <= line + len -> q < Z.of_nat (List.length text) ->
     _get_current_line text q lt = Return (line, len)) /\
  (line + len + 1 < Z.of_nat (List.length text) ->
   exists len' : Z,
     _get_current_line text (line + len + 1) lt = Return (line + len + 1, len')).
Proof.
  intros H. pose proof (get_current_line_Return _ _ _ _ _ H) as Hpos.
  rewrite get_current_line_inside in H by exact Hpos.
  fold (line_end text lt (Z.to_nat position)) in H.
  pose proof (line_start_loop_le text lt (Z.to_nat position)) as Hs.
  pose proof (line_start_loop_is_start text lt (Z.to_nat position)) as Hstart.
  pose proof (line_end_bounds text lt (Z.to_nat position)) as He.
  pose proof (line_start_loop_clear text lt (Z.to_nat position)) as Hback.
  pose proof (line_end_loop_clear text lt
                (List.length text - Z.to_nat position) (Z.to_nat position)) as Hfwd.
  pose proof (line_end_loop_stop text lt
                (List.length text - Z.to_nat position) (Z.to_nat position)) as Hstop.
  fold (line_end text lt (Z.to_nat position)) in Hfwd, Hstop.
  set (e := line_end text lt (Z.to_nat position)) in *.
  set (s := _line_start_loop text lt (Z.to_nat position)) in *.
  injection H as <- <-.
  assert (Hclear : forall j, (s <= j < e)%nat -> Ascii.eqb (deref text j) lt = false).
  { intros j Hj. destruct (Nat.lt_ge_cases j (Z.to_nat position)).
    - apply Hback. lia.
    - apply Hfwd. lia. }
  split.
  - intros q Hq Hlen.
    rewrite get_current_line_inside by lia.
    rewrite (line_start_loop_unique text lt s (Z.to_nat q));
      [ | lia | exact Hstart | intros j Hj; apply Hclear; lia ].
    rewrite (line_end_loop_unique text lt _ (Z.to_nat q) e);
      [ reflexivity | lia | lia | intros j Hj; apply Hclear; lia | ].
    destruct (Nat.eq_dec e (List.length text)) as [Heq|Hne]; [now left|].
    right. apply Hstop; lia.
  - intros Hnext.
    rewrite get_current_line_inside by lia.
    replace (Z.to_nat (Z.of_nat s + Z.of_nat (e - s) + 1)) with (S e) by lia.
    assert (Hfix : _line_start_loop text lt (S e) = S e).
    { apply line_start_loop_fix. simpl. apply Hstop; lia. }
    rewrite Hfix. eexists. f_equal. f_equal. lia.
Qed.

Lemma get_current_line_same_line_witness :
  (forall q : Z,
     6 <= q <= 6 + 5 -> q < Z.of_nat (List.length abc_text) ->
     _get_current_line abc_text q "010" = Return (6, 5)) /\
  (6 + 5 + 1 < Z.of_nat (List.length abc_text) ->
   exists len' : Z,
     _get_current_line abc_text (6 + 5 + 1) "010" = Return (6 + 5 + 1, len')).
Proof.
  apply (get_current_line_same_line abc_text "010" 8 6 5).
  reflexivity.
Defined.

(** ** Construction of a [CsvConfig] *)

Lemma ascii_char_value (char_is_signed : bool) (c : ascii) :
  Z.of_nat (nat_of_ascii c) <= 127 ->
  (0 <=? char_value char_is_signed c) = true /\
  (char_value char_is_signed c <=? 127) = true.
Proof.
  destruct c as [b0 b1 b2 b3 b4 b5 b6 b7].
  destruct b7.
  - intros H. exfalso.
    destruct b0, b1, b2, b3, b4, b5, b6; vm_compute in H; apply H; reflexivity.
  - intros _.
    destruct char_is_signed, b0, b1, b2, b3, b4, b5, b6; split; reflexivity.
Qed.

Lemma first_line_stops_at_terminator (lt : ascii) (text : list ascii) :
  (List.length (first_line text lt) < List.length text)%nat ->
  Ascii.eqb (deref text (List.length (first_line text lt))) lt = true.
Proof.
  induction text as [|c text IH]; simpl; [lia|].
  destruct (Ascii.eqb c lt) eqn:E; simpl; [intros _; exact E|].
  intros H. unfold deref in *. simpl. apply IH. lia.
Qed.

(** X4: for a non-empty buffer and terminators in 0..127 the constructor of
    [CsvConfig] succeeds, whatever the bytes.  The configuration has at
    least one column; its [body_offset] is at most one past the end of the
    buffer, and when it is inside the buffer it is the first byte of a
    line. *)
Theorem CsvConfig_new_succeeds (char_is_signed : bool) (text : list ascii)
    (has_header : bool) (ft lt : ascii) :
  text <> [] ->
  Z.of_nat (List.length text) <= OFF_MAX ->
  Z.of_nat (nat_of_ascii ft) <= 127 ->
  Z.of_nat (nat_of_ascii lt) <= 127 ->
  exists cfg : CsvConfig,
    CsvConfig_new char_is_signed text has_header ft lt = Return cfg /\
    content cfg = text /\
    1 <= get_n_columns cfg /\
    0 <= body_offset cfg <= filesize cfg + 1 /\
    (body_offset cfg < filesize cfg ->
     is_line_start (content cfg) (get_line_terminator cfg)
       (Z.to_nat (body_offset cfg)) = true).
Proof.
  intros Hne Hsize Hft Hlt.
  destruct (ascii_char_value char_is_signed ft Hft) as [F0 F1].
  destruct (ascii_char_value char_is_signed lt Hlt) as [L0 L1].
  eexists. split.
  { unfold CsvConfig_new, ASSERT. rewrite F0, F1, L0, L1. simpl bind.
    rewrite get_current_line_first by exact Hne. simpl bind. reflexivity. }
  change (Z.to_nat 0) with O. rewrite Nat2Z.id.
  unfold span. simpl skipn. rewrite firstn_first_line.
  unfold content, get_n_columns, body_offset, filesize, get_line_terminator. simpl.
  pose proof (first_line_length_le lt text) as Hfl.
  split; [reflexivity|].
  split; [rewrite split_length; lia|].
  destruct has_header; simpl.
  - rewrite wrap64_small by (pose proof OFF_MAX_lt; lia).
    split; [lia|]. intros Hin.
    replace (Z.to_nat (Z.of_nat (List.length (first_line text lt)) + 1))
      with (S (List.length (first_line text lt))) by lia.
    simpl. apply first_line_stops_at_terminator. lia.
  - split; [lia | reflexivity].
Qed.

Lemma CsvConfig_new_succeeds_witness :
  exists cfg : CsvConfig,
    CsvConfig_new true abc_text true "," "010" = Return cfg /\
    content cfg = abc_text /\
    1 <= get_n_columns cfg /\
    0 <= body_offset cfg <= filesize cfg + 1 /\
    (body_offset cfg < filesize cfg ->
     is_line_start (content cfg) (get_line_terminator cfg)
       (Z.to_nat (body_offset cfg)) = true).
Proof.
  apply (CsvConfig_new_succeeds true abc_text true "," "010").
  - discriminate.
  - vm_compute. discriminate.
  - vm_compute. discriminate.
  - vm_compute. discriminate.
Defined.

(** ** Construction of a [PartialCsvParser] *)

(** The constructor of [PartialCsvParser] checks two bounds and nothing
    else.  After the defaults are put in, a first offset before the body
    fails the first [ASSERT]; otherwise a last offset at or after the end
    of the file fails the second; otherwise the parser is returned, with the
    cursor on the first offset, also when the first offset is after the
    last one or after the end of the file. *)
Lemma PartialCsvParser_new_bounds (cfg : CsvConfig) (from to : Z) :
  let this_from :=
    if from =? PARSE_FROM_BODY_BEGINNING then body_offset cfg else from in
  let this_to :=
    if to =? PARSE_TO_FILE_END then wrap64 (filesize cfg - 1) else to in
  PartialCsvParser_new cfg from to
  = if this_from <? body_offset cfg then
      Throw (PCPAssertionFailed "csv_config.body_offset() <= this->parse_from")
    else if filesize cfg <=? this_to then
      Throw (PCPAssertionFailed "this->parse_to < csv_config.filesize()")
    else
      Return {| csv_config := cfg; parse_from := this_from;
                parse_to := this_to; cur_pos := this_from |}.
Proof.
  intros this_from this_to. unfold PartialCsvParser_new, ASSERT.
  fold this_from. fold this_to.
  rewrite (Z.leb_antisym this_from), (Z.ltb_antisym (filesize cfg) this_to).
  destruct (this_from <? body_offset cfg); simpl; [reflexivity|].
  destruct (filesize cfg <=? this_to); reflexivity.
Qed.

(** ** The states of a parser *)

Lemma get_row_body_frame (p : PartialCsvParser) :
  match get_row_body p with
  | Leave p' _ | Again p' =>
      csv_config p' = csv_config p /\
      parse_from p' = parse_from p /\
      parse_to p' = parse_to p
  end.
Proof.
  unfold get_row_body.
  destruct (_get_current_line _ _ _) as [[line line_length]|e]; [|tauto].
  destruct (cur_pos p =? line).
  - destruct (negb _); simpl; tauto.
  - destruct (parse_to p <? _); [tauto|].
    destruct (parse_to p >=? _); simpl; tauto.
Qed.

Lemma get_row_loop_frame (fuel : nat) :
  forall p p' r,
    get_row_loop fuel p = Some (p', r) ->
    csv_config p' = csv_config p /\
    parse_from p' = parse_from p /\
    parse_to p' = parse_to p.
Proof.
  induction fuel as [|fuel IH]; intros p p' r H.
  - simpl in H. destruct (cur_pos p <=? parse_to p); [discriminate|].
    injection H as <- _. tauto.
  - rewrite get_row_loop_S in H.
    destruct (cur_pos p <=? parse_to p); [|injection H as <- _; tauto].
    pose proof (get_row_body_frame p) as Hb.
    destruct (get_row_body p) as [p1 r1|p1].
    + injection H as <- _. exact Hb.
    + destruct (IH _ _ _ H) as (H1 & H2 & H3).
      destruct Hb as (B1 & B2 & B3). repeat split; congruence.
Qed.

Lemma PartialCsvParser_new_Return (cfg : CsvConfig) (from to : Z)
    (p : PartialCsvParser) :
  PartialCsvParser_new cfg from to = Return p ->
  csv_config p = cfg /\
  body_offset cfg <= parse_from p /\
  parse_to p < filesize cfg /\
  cur_pos p = parse_from p.
Proof.
  unfold PartialCsvParser_new, ASSERT.
  destruct (body_offset cfg <=? _) eqn:E1; [|discriminate].
  simpl bind.
  destruct (_ <? filesize cfg) eqn:E2; [|discriminate].
  intros H. injection H as <-. simpl.
  apply Z.leb_le in E1. apply Z.ltb_lt in E2. tauto.
Qed.

(** X6: let the constructor return a parser for the offsets [from] and
    [to].  Every state that calls of [get_row] lead to from it keeps the
    configuration it was constructed with and the range the constructor
    stored (the offsets given, with the defaults put in); the range starts
    in the body and ends inside the file; the cursor is never before the
    first offset of the range and, once it has moved, never more than one
    past the end of the file (so it cannot wrap); and [get_row] returns or
    throws on it, in one pass through its loop once the cursor has moved. *)
Theorem reachable_invariant (cfg : CsvConfig) (from to : Z)
    (p0 p : PartialCsvParser) :
  filesize cfg <= OFF_MAX ->
  PartialCsvParser_new cfg from to = Return p0 ->
  reachable p0 p ->
  csv_config p = cfg /\
  parse_from p
    = (if from =? PARSE_FROM_BODY_BEGINNING then body_offset cfg else from) /\
  parse_to p
    = (if to =? PARSE_TO_FILE_END then wrap64 (filesize cfg - 1) else to) /\
  body_offset cfg <= parse_from p /\
  parse_to p < filesize cfg /\
  parse_from p <= cur_pos p /\
  (cur_pos p = parse_from p \/
   (cur_pos p <= filesize cfg + 1 /\
    forall fuel : nat, get_row_loop (S fuel) p = get_row p)) /\
  exists (p' : PartialCsvParser) (r : result (list string)),
    get_row p = Some (p', r).
Proof.
  intros Hsize Hnew Hreach.
  assert (Hrange : parse_from p0
                   = (if from =? PARSE_FROM_BODY_BEGINNING then body_offset cfg else from) /\
                   parse_to p0
                   = (if to =? PARSE_TO_FILE_END then wrap64 (filesize cfg - 1) else to)).
  { rewrite PartialCsvParser_new_bounds in Hnew.
    destruct (_ <? body_offset cfg); [discriminate|].
    destruct (filesize cfg <=? _); [discriminate|].
    injection Hnew as <-. split; reflexivity. }
  apply PartialCsvParser_new_Return in Hnew.
  destruct Hnew as (N1 & N2 & N3 & N4).
  assert (Hinv : csv_config p = cfg /\
                 parse_from p = parse_from p0 /\
                 parse_to p = parse_to p0 /\
                 parse_from p <= cur_pos p /\
                 (cur_pos p = parse_from p \/
                  (cur_pos p <= filesize cfg + 1 /\
                   (cur_pos p <= parse_to p ->
                    is_line_start (content cfg) (get_line_terminator cfg)
                      (Z.to_nat (cur_pos p)) = true)))).
  { induction Hreach as [| p p' r Hreach IH Hrow].
    - repeat split; try assumption; [lia | now left].
    - destruct IH as (Hcfg & Hpf & Hpt & Hcur & Hmoved).
      pose proof (body_offset_nonneg cfg) as Hb.
      assert (Hok : parser_ok p) by (unfold parser_ok; rewrite Hcfg; lia).
      rewrite get_row_spec in Hrow by exact Hok.
      rewrite Hcfg in Hrow.
      destruct (owned_lines_cases cfg (cur_pos p) (parse_to p))
        as [Hnone | (s & Hs & Hst & Hnext & Hcons)]; try lia.
      + rewrite Hnone in Hrow. injection Hrow as <- _. tauto.
      + rewrite Hcons in Hrow. injection Hrow as <- _. simpl.
        rewrite next_line_at_start in * by (auto; lia).
        pose proof (line_end_bounds (content cfg) (get_line_terminator cfg)
                      (Z.to_nat s)) as He.
        pose proof (line_start_after_end (content cfg) (get_line_terminator cfg)
                      (Z.to_nat s)) as Hafter.
        set (e := line_end _ _ _) in *.
        unfold filesize, content in N3, He, Hafter, Hsize.
        unfold filesize.
        repeat split; try assumption; try lia.
        right. split; [lia|]. intros Hin.
        replace (Z.to_nat (Z.of_nat e + 1)) with (S e) by lia.
        apply Hafter; lia. }
  destruct Hinv as (Hcfg & Hpf & Hpt & Hcur & Hmoved).
  destruct Hrange as (R1 & R2).
  pose proof (body_offset_nonneg cfg) as Hb.
  assert (Hok : parser_ok p) by (unfold parser_ok; rewrite Hcfg; lia).
  split; [exact Hcfg|].
  split; [congruence|]. split; [congruence|].
  split; [lia|]. split; [lia|]. split; [exact Hcur|]. split.
  - destruct Hmoved as [Heq | (Hle & Hline)]; [now left|].
    right. split; [exact Hle|]. intros fuel.
    destruct (Z.leb_spec (cur_pos p) (parse_to p)) as [Hin|Hout].
    + unfold get_row.
      replace (Z.to_nat (parse_to p + 1 - cur_pos p))
        with (S (Z.to_nat (parse_to p - cur_pos p))) by lia.
      rewrite !get_row_loop_S, (proj2 (Z.leb_le _ _) Hin).
      rewrite get_row_body_owned; [reflexivity | exact Hok | exact Hin |].
      rewrite Hcfg. apply Hline. exact Hin.
    + unfold get_row. rewrite !get_row_loop_past by exact Hout. reflexivity.
  - rewrite get_row_spec by exact Hok.
    destruct (owned_lines _ _ _); eexists; eexists; reflexivity.
Qed.

Lemma reachable_invariant_witness :
  csv_config {| csv_config := abc_config; parse_from := 8; parse_to := 17;
                cur_pos := 18 |} = abc_config /\
  8 = (if 8 =? PARSE_FROM_BODY_BEGINNING then body_offset abc_config else 8) /\
  17 = (if 17 =? PARSE_TO_FILE_END then wrap64 (filesize abc_config - 1) else 17) /\
  body_offset abc_config <= 8 /\
  17 < filesize abc_config /\
  8 <= 18 /\
  (18 = 8 \/
   (18 <= filesize abc_config + 1 /\
    forall fuel : nat,
      get_row_loop (S fuel)
        {| csv_config := abc_config; parse_from := 8; parse_to := 17; cur_pos := 18 |}
      = get_row
          {| csv_config := abc_config; parse_from := 8; parse_to := 17;
             cur_pos := 18 |})) /\
  exists (p' : PartialCsvParser) (r : result (list string)),
    get_row {| csv_config := abc_config; parse_from := 8; parse_to := 17;
               cur_pos := 18 |} = Some (p', r).
Proof.
  apply (reachable_invariant abc_config 8 17
           {| csv_config := abc_config; parse_from := 8; parse_to := 17;
              cur_pos := 8 |}
           {| csv_config := abc_config; parse_from := 8; parse_to := 17;
              cur_pos := 18 |}).
  - vm_compute. discriminate.
  - reflexivity.
  - apply (reach_call _
             {| csv_config := abc_config; parse_from := 8; parse_to := 17;
                cur_pos := 8 |} _ (Return ["4"; "5"; "6"]%string)).
    + apply reach_start.
    + reflexivity.
Defined.

(** ** The empty range before offset 0 *)

(** X5: the range that is empty because its last offset is one before its
    first, in a file without header.  For a first offset from 1 up to the
    size of the file it gives no row.  For a first offset after that the
    constructor fails its second [ASSERT], the last offset being at or after
    the end of the file.  At offset 0 the last offset, computed as [0 - 1]
    in [size_t], is the value that stands for a defaulted [parse_to], and
    the parser covers the whole file. *)
Theorem empty_range_before_zero (cfg : CsvConfig) :
  has_header_line cfg = false ->
  1 <= filesize cfg <= OFF_MAX ->
  (forall from : Z,
     1 <= from <= filesize cfg ->
     parse_range cfg (from, wrap64 (from - 1)) = Some []) /\
  (forall from : Z,
     filesize cfg < from <= SIZE_MAX ->
     PartialCsvParser_new cfg from (wrap64 (from - 1))
       = Throw (PCPAssertionFailed "this->parse_to < csv_config.filesize()") /\
     parse_range cfg (from, wrap64 (from - 1)) = None) /\
  exists (r : result (list string)) (rest : list (result (list string))),
    parse_range cfg (0, wrap64 (0 - 1)) = Some (r :: rest) /\
    parse_range cfg (0, filesize cfg - 1) = Some (r :: rest).
Proof.
  intros Hh Hsize.
  assert (Hb : body_offset cfg = 0) by (unfold body_offset; now rewrite Hh).
  pose proof OFF_MAX_lt as Hmax.
  split; [|split].
  - intros from Hfrom. unfold parse_range. simpl fst. simpl snd.
    rewrite PartialCsvParser_new_bounds.
    rewrite wrap64_small by lia.
    replace (from =? PARSE_FROM_BODY_BEGINNING) with false
      by (symmetry; apply Z.eqb_neq; change PARSE_FROM_BODY_BEGINNING with (2 ^ 64 - 1); lia).
    replace (from - 1 =? PARSE_TO_FILE_END) with false
      by (symmetry; apply Z.eqb_neq; rewrite sentinel_value; lia).
    rewrite Hb.
    replace (from <? 0) with false by (symmetry; apply Z.ltb_ge; lia).
    replace (filesize cfg <=? from - 1) with false by (symmetry; apply Z.leb_gt; lia).
    rewrite drain_spec by (unfold parser_ok; simpl; lia).
    simpl. rewrite owned_lines_empty by lia. reflexivity.
  - intros from Hfrom. unfold SIZE_MAX in Hfrom.
    assert (Hnew : PartialCsvParser_new cfg from (wrap64 (from - 1))
                   = Throw (PCPAssertionFailed "this->parse_to < csv_config.filesize()")).
    { rewrite PartialCsvParser_new_bounds.
      rewrite wrap64_small by lia.
      replace (from - 1 =? PARSE_TO_FILE_END) with false
        by (symmetry; apply Z.eqb_neq; rewrite sentinel_value; lia).
      rewrite Hb.
      replace ((if from =? PARSE_FROM_BODY_BEGINNING then 0 else from) <? 0) with false
        by (symmetry; apply Z.ltb_ge;
            destruct (from =? PARSE_FROM_BODY_BEGINNING); lia).
      replace (filesize cfg <=? from - 1) with true by (symmetry; apply Z.leb_le; lia).
      reflexivity. }
    split; [exact Hnew|].
    unfold parse_range. simpl fst. simpl snd. rewrite Hnew. reflexivity.
  - assert (Hwhole : parse_range cfg (0, filesize cfg - 1)
                     = Some (map (row_at cfg) (owned_lines cfg 0 (filesize cfg - 1))))
      by (apply parse_range_spec; lia).
    rewrite owned_lines_at_start in Hwhole by (try reflexivity; lia).
    simpl map in Hwhole.
    exists (row_at cfg 0),
      (map (row_at cfg) (owned_lines cfg (next_line cfg 0) (filesize cfg - 1))).
    split; [|exact Hwhole].
    rewrite <- Hwhole. unfold parse_range. simpl fst. simpl snd.
    rewrite !PartialCsvParser_new_bounds.
    change (wrap64 (-1) =? PARSE_TO_FILE_END) with true.
    replace (filesize cfg - 1 =? PARSE_TO_FILE_END) with false
      by (symmetry; apply Z.eqb_neq; rewrite sentinel_value; lia).
    rewrite wrap64_small by lia. reflexivity.
Qed.

Lemma empty_range_before_zero_witness :
  (forall from : Z,
     1 <= from <= filesize ragged_config ->
     parse_range ragged_config (from, wrap64 (from - 1)) = Some []) /\
  (forall from : Z,
     filesize ragged_config < from <= SIZE_MAX ->
     PartialCsvParser_new ragged_config from (wrap64 (from - 1))
       = Throw (PCPAssertionFailed "this->parse_to < csv_config.filesize()") /\
     parse_range ragged_config (from, wrap64 (from - 1)) = None) /\
  exists (r : result (list string)) (rest : list (result (list string))),
    parse_range ragged_config (0, wrap64 (0 - 1)) = Some (r :: rest) /\
    parse_range ragged_config (0, filesize ragged_config - 1) = Some (r :: rest).
Proof.
  apply (empty_range_before_zero ragged_config).
  - reflexivity.
  - vm_compute. split; discriminate.
Defined.

(** ** The calls of [get_row] one after the other *)

Lemma last_cons_cons (s r : Z) (rest : list Z) (d : Z) :
  last (s :: r :: rest) d = last (r :: rest) d.
Proof. reflexivity. Qed.

(** X7: on a parser whose range ends inside the file, the calls of
    [get_row] go through the lines the range owns from the cursor on, one
    line a call and in the order of the file: call number [n] (from 0)
    gives the row or error of line number [n] and leaves the cursor just
    after that line; when there are no more than [n] such lines it returns
    the empty vector and leaves the cursor after the last of them. *)
Theorem get_row_nth_call (n : nat) :
  forall p : PartialCsvParser,
    parser_ok p ->
    get_row_after n p
    = Some match nth_error (owned_lines (csv_config p) (cur_pos p) (parse_to p)) n with
           | Some s =>
               (set_cur_pos p (next_line (csv_config p) s), row_at (csv_config p) s)
           | None =>
               (match owned_lines (csv_config p) (cur_pos p) (parse_to p) with
                | [] => p
                | s :: rest =>
                    set_cur_pos p (next_line (csv_config p) (last (s :: rest) 0))
                end, Return [])
           end.
Proof.
  induction n as [|n IH]; intros p Hok; pose proof Hok as (H0 & Hto & Hsize).
  - simpl get_row_after. rewrite get_row_spec by exact Hok.
    destruct (owned_lines _ _ _); reflexivity.
  - simpl get_row_after. rewrite get_row_spec by exact Hok.
    destruct (owned_lines_cases (csv_config p) (cur_pos p) (parse_to p) H0 Hto)
      as [Hnone | (s & Hs & _ & Hnext & Hcons)].
    + rewrite Hnone. rewrite IH by exact Hok. rewrite Hnone.
      destruct n; reflexivity.
    + rewrite Hcons.
      rewrite IH by (apply parser_ok_set_cur_pos; [exact Hok | lia]).
      simpl csv_config. simpl cur_pos. simpl parse_to. simpl nth_error.
      destruct (nth_error _ n); [reflexivity|].
      destruct (owned_lines (csv_config p) (next_line (csv_config p) s) (parse_to p));
        reflexivity.
Qed.

Lemma get_row_nth_call_witness :
  get_row_after 1
    {| csv_config := ragged_config; parse_from := 1; parse_to := 8; cur_pos := 1 |}
  = Some ({| csv_config := ragged_config; parse_from := 1; parse_to := 8;
             cur_pos := 10 |}, Return ["4"; "5"]%string).
Proof.
  rewrite (get_row_nth_call 1
             {| csv_config := ragged_config; parse_from := 1; parse_to := 8;
                cur_pos := 1 |}).
  - reflexivity.
  - vm_compute. repeat split; discriminate.
Defined.

(** ** The fields of a returned row *)

Lemma span_length (text : list ascii) (start len : nat) :
  (start + len <= List.length text)%nat -> List.length (span text start len) = len.
Proof. intros H. unfold span. rewrite length_firstn, length_skipn. lia. Qed.

Lemma span_In (text : list ascii) (start len : nat) (c : ascii) :
  In c (span text start len) ->
  exists j, (start <= j < start + len)%nat /\ deref text j = c.
Proof.
  intros Hin. apply (In_nth _ _ zero) in Hin. destruct Hin as (i & Hi & Hnth).
  unfold span in *. pose proof (firstn_le_length len (skipn start text)) as Hlen.
  rewrite nth_firstn in Hnth.
  replace (i <? len)%nat with true in Hnth by (symmetry; apply Nat.ltb_lt; lia).
  rewrite nth_skipn in Hnth.
  exists (start + i)%nat. split; [lia | exact Hnth].
Qed.

Lemma In_join (d c : ascii) (fields : list string) (f : string) :
  In f fields -> In c (list_ascii_of_string f) -> In c (join d fields).
Proof.
  induction fields as [|g rest IH]; intros Hf Hc; [contradiction|].
  destruct rest as [|h rest].
  - destruct Hf as [->|[]]. exact Hc.
  - change (join d (g :: h :: rest))
      with (list_ascii_of_string g ++ d :: join d (h :: rest)).
    apply in_or_app. destruct Hf as [->|Hf]; [now left|].
    right. right. apply IH; assumption.
Qed.

(** The bytes of the line that starts at a line start [s]: no terminator
    among them, and as many as [line_length_at] says. *)
Lemma line_bytes_clean (cfg : CsvConfig) (s : Z) :
  0 <= s < filesize cfg ->
  is_line_start (content cfg) (get_line_terminator cfg) (Z.to_nat s) = true ->
  ~ In (get_line_terminator cfg)
      (span (content cfg) (Z.to_nat s) (Z.to_nat (line_length_at cfg s))) /\
  Z.of_nat (List.length
              (span (content cfg) (Z.to_nat s) (Z.to_nat (line_length_at cfg s))))
  = line_length_at cfg s.
Proof.
  intros Hs Hst. rewrite line_length_at_inside by exact Hs.
  apply line_start_loop_fix in Hst. rewrite Hst.
  pose proof (line_end_bounds (content cfg) (get_line_terminator cfg) (Z.to_nat s)) as He.
  pose proof (line_end_loop_clear (content cfg) (get_line_terminator cfg)
                (List.length (content cfg) - Z.to_nat s) (Z.to_nat s)) as Hclear.
  fold (line_end (content cfg) (get_line_terminator cfg) (Z.to_nat s)) in Hclear.
  set (e := line_end _ _ _) in *.
  unfold filesize, content in Hs, He.
  rewrite Nat2Z.id. split.
  - intros Hin. apply span_In in Hin. destruct Hin as (j & Hj & Hd).
    specialize (Hclear j). rewrite Hd, Ascii.eqb_refl in Hclear.
    assert (true = false) by (apply Hclear; lia). discriminate.
  - rewrite span_length; [reflexivity | unfold content; lia].
Qed.

Lemma row_at_join (cfg : CsvConfig) (s : Z) (row : list string) :
  row_at cfg s = Return row ->
  join (get_field_terminator cfg) row
  = span (content cfg) (Z.to_nat s) (Z.to_nat (line_length_at cfg s)) /\
  Forall (fun f => ~ In (get_field_terminator cfg) (list_ascii_of_string f)) row.
Proof.
  unfold row_at. destruct (negb _); [discriminate|].
  intros H. injection H as <-. rewrite split_as_split_from. split.
  - apply split_from_join.
  - apply split_from_no_delimiter. intros [].
Qed.

(** The line that starts at a line start [s] runs up to a terminator or to
    the end of the buffer. *)
Lemma line_bytes_end (cfg : CsvConfig) (s : Z) :
  0 <= s < filesize cfg ->
  is_line_start (content cfg) (get_line_terminator cfg) (Z.to_nat s) = true ->
  s + line_length_at cfg s = filesize cfg \/
  (s + line_length_at cfg s < filesize cfg /\
   deref (content cfg) (Z.to_nat (s + line_length_at cfg s))
   = get_line_terminator cfg).
Proof.
  intros Hs Hst. rewrite line_length_at_inside by exact Hs.
  apply line_start_loop_fix in Hst. rewrite Hst.
  pose proof (line_end_bounds (content cfg) (get_line_terminator cfg) (Z.to_nat s)) as He.
  pose proof (line_end_loop_stop (content cfg) (get_line_terminator cfg)
                (List.length (content cfg) - Z.to_nat s) (Z.to_nat s)) as Hstop.
  fold (line_end (content cfg) (get_line_terminator cfg) (Z.to_nat s)) in Hstop.
  set (e := line_end _ _ _) in *.
  assert (Hfs : filesize cfg = Z.of_nat (List.length (content cfg))) by reflexivity.
  destruct (Nat.eq_dec e (List.length (content cfg))) as [Hend|Hmid]; [left; lia|].
  right. split; [lia|].
  replace (Z.to_nat (s + Z.of_nat (e - Z.to_nat s))) with e by lia.
  apply Ascii.eqb_eq. apply Hstop; lia.
Qed.

(** X8: a row that [get_row] returns is a line of the file, cut at the
    field terminators.  The line starts at an offset [s] of the range that
    is the first byte of a line, and the first such offset from the cursor
    on.  Joining the fields with the field terminator gives the bytes of the
    buffer from [s] on, and these bytes are the whole line: they hold no
    line terminator, and right after them comes a line terminator or the
    end of the buffer.  No field holds a field terminator or a line
    terminator, and the cursor is left just after the line and one
    terminator. *)
Theorem get_row_fields (p p' : PartialCsvParser) (row : list string) :
  parser_ok p ->
  get_row p = Some (p', Return row) ->
  row <> [] ->
  exists s : Z,
    cur_pos p <= s <= parse_to p /\
    is_line_start (content (csv_config p)) (get_line_terminator (csv_config p))
      (Z.to_nat s) = true /\
    join (get_field_terminator (csv_config p)) row
    = span (content (csv_config p)) (Z.to_nat s)
        (List.length (join (get_field_terminator (csv_config p)) row)) /\
    Forall (fun f =>
              ~ In (get_field_terminator (csv_config p)) (list_ascii_of_string f) /\
              ~ In (get_line_terminator (csv_config p)) (list_ascii_of_string f))
      row /\
    cur_pos p'
    = s + Z.of_nat (List.length (join (get_field_terminator (csv_config p)) row)) + 1 /\
    (forall j : Z, cur_pos p <= j < s ->
       is_line_start (content (csv_config p)) (get_line_terminator (csv_config p))
         (Z.to_nat j) = false) /\
    ~ In (get_line_terminator (csv_config p))
        (join (get_field_terminator (csv_config p)) row) /\
    (s + Z.of_nat (List.length (join (get_field_terminator (csv_config p)) row))
       = filesize (csv_config p) \/
     (s + Z.of_nat (List.length (join (get_field_terminator (csv_config p)) row))
        < filesize (csv_config p) /\
      deref (content (csv_config p))
        (Z.to_nat
           (s + Z.of_nat (List.length
                            (join (get_field_terminator (csv_config p)) row))))
      = get_line_terminator (csv_config p))) /\
    csv_config p' = csv_config p /\
    parse_from p' = parse_from p /\
    parse_to p' = parse_to p.
Proof.
  intros Hok Hrow Hne. pose proof Hok as (H0 & Hto & Hsize).
  rewrite get_row_spec in Hrow by exact Hok.
  destruct (owned_lines_cases (csv_config p) (cur_pos p) (parse_to p) H0 Hto)
    as [Hnone | (s & Hs & Hst & Hnext & Hcons)].
  { rewrite Hnone in Hrow. injection Hrow as _ <-. contradiction. }
  pose proof (owned_lines_first _ _ _ _ _ H0 Hto Hcons) as Hfirst.
  rewrite Hcons in Hrow. injection Hrow as <- Hrow.
  destruct (row_at_join _ _ _ Hrow) as [Hjoin Hft].
  destruct (line_bytes_clean (csv_config p) s) as [Hclean Hlen]; [lia | exact Hst |].
  pose proof (line_bytes_end (csv_config p) s) as Hend.
  rewrite <- Hjoin in Hclean, Hlen. rewrite <- Hlen in Hend.
  exists s. split; [exact Hs|]. split; [exact Hst|].
  split; [|split; [|split; [|split; [|split; [|split]]]]].
  - rewrite Hjoin at 1. f_equal. lia.
  - apply Forall_forall. intros f Hf. split.
    + rewrite Forall_forall in Hft. apply Hft. exact Hf.
    + intros Hin. apply Hclean. apply (In_join _ _ _ f); assumption.
  - simpl. unfold next_line. lia.
  - exact Hfirst.
  - exact Hclean.
  - apply Hend; [lia | exact Hst].
  - simpl. repeat split.
Qed.

Lemma get_row_fields_witness :
  exists s : Z,
    8 <= s <= 17 /\
    is_line_start (content abc_config) (get_line_terminator abc_config)
      (Z.to_nat s) = true /\
    join (get_field_terminator abc_config) ["4"; "5"; "6"]%string
    = span (content abc_config) (Z.to_nat s)
        (List.length (join (get_field_terminator abc_config) ["4"; "5"; "6"]%string)) /\
    Forall (fun f =>
              ~ In (get_field_terminator abc_config) (list_ascii_of_string f) /\
              ~ In (get_line_terminator abc_config) (list_ascii_of_string f))
      ["4"; "5"; "6"]%string /\
    18 = s + Z.of_nat (List.length
                         (join (get_field_terminator abc_config)
                            ["4"; "5"; "6"]%string)) + 1 /\
    (forall j : Z, 8 <= j < s ->
       is_line_start (content abc_config) (get_line_terminator abc_config)
         (Z.to_nat j) = false) /\
    ~ In (get_line_terminator abc_config)
        (join (get_field_terminator abc_config) ["4"; "5"; "6"]%string) /\
    (s + Z.of_nat (List.length
                     (join (get_field_terminator abc_config) ["4"; "5"; "6"]%string))
       = filesize abc_config \/
     (s + Z.of_nat (List.length
                      (join (get_field_terminator abc_config) ["4"; "5"; "6"]%string))
        < filesize abc_config /\
      deref (content abc_config)
        (Z.to_nat
           (s + Z.of_nat (List.length
                            (join (get_field_terminator abc_config)
                               ["4"; "5"; "6"]%string))))
      = get_line_terminator abc_config)) /\
    abc_config = abc_config /\ 8 = 8 /\ 17 = 17.
Proof.
  apply (get_row_fields
           {| csv_config := abc_config; parse_from := 8; parse_to := 17; cur_pos := 8 |}
           {| csv_config := abc_config; parse_from := 8; parse_to := 17; cur_pos := 18 |}
           ["4"; "5"; "6"]%string).
  - vm_compute. repeat split; discriminate.
  - reflexivity.
  - discriminate.
Defined.

(** ** Writing the rows back *)

Lemma last_In (l : list ascii) (d : ascii) : l <> [] -> In (last l d) l.
Proof.
  induction l as [|c l IH]; intros Hne; [contradiction|].
  destruct l as [|c' l]; [now left|].
  right. apply IH. discriminate.
Qed.

Lemma last_app_cons_default (a b : list ascii) (d : ascii) :
  last (a ++ d :: b) d = last b d.
Proof.
  induction a as [|c a IH]; simpl.
  - destruct b; reflexivity.
  - destruct (a ++ d :: b) eqn:E; [destruct a; discriminate|]. exact IH.
Qed.

Lemma skipn_span (text : list ascii) (c e : nat) :
  (c <= e)%nat -> skipn c text = span text c (e - c) ++ skipn e text.
Proof.
  intros H. unfold span.
  rewrite <- (firstn_skipn (e - c) (skipn c text)) at 1.
  rewrite skipn_skipn. f_equal. f_equal. lia.
Qed.

(** From a line start on, the owned lines, each followed by a terminator,
    spell the rest of the buffer; a terminator is added at the end when the
    buffer does not end with one. *)
Lemma lines_spell_buffer (cfg : CsvConfig) (k : nat) :
  forall c : Z,
    0 <= c ->
    (Z.to_nat (filesize cfg - c) <= k)%nat ->
    (c < filesize cfg ->
     is_line_start (content cfg) (get_line_terminator cfg) (Z.to_nat c) = true) ->
    flat_map (fun s => span (content cfg) (Z.to_nat s) (Z.to_nat (line_length_at cfg s))
                       ++ [get_line_terminator cfg])
      (owned_lines cfg c (filesize cfg - 1))
    = skipn (Z.to_nat c) (content cfg)
      ++ (if Ascii.eqb (last (skipn (Z.to_nat c) (content cfg)) (get_line_terminator cfg))
               (get_line_terminator cfg)
          then [] else [get_line_terminator cfg]).
Proof.
  assert (Hfs : filesize cfg = Z.of_nat (List.length (content cfg))) by reflexivity.
  induction k as [|k IH]; intros c Hc Hk Hstart.
  - rewrite owned_lines_empty by lia.
    rewrite skipn_all2 by lia.
    simpl. now rewrite Ascii.eqb_refl.
  - destruct (Z.leb_spec (filesize cfg) c) as [Hout|Hin].
    { rewrite owned_lines_empty by lia.
      rewrite skipn_all2 by lia.
      simpl. now rewrite Ascii.eqb_refl. }
    specialize (Hstart Hin).
    rewrite owned_lines_at_start by (auto; lia).
    rewrite next_line_at_start by (auto; lia).
    simpl flat_map.
    rewrite (line_length_at_inside cfg c) by lia.
    rewrite (proj1 (line_start_loop_fix _ _ _) Hstart).
    pose proof (line_end_bounds (content cfg) (get_line_terminator cfg) (Z.to_nat c)) as He.
    pose proof (line_start_after_end (content cfg) (get_line_terminator cfg)
                  (Z.to_nat c)) as Hafter.
    pose proof (line_end_loop_stop (content cfg) (get_line_terminator cfg)
                  (List.length (content cfg) - Z.to_nat c) (Z.to_nat c)) as Hstop.
    pose proof (line_end_loop_clear (content cfg) (get_line_terminator cfg)
                  (List.length (content cfg) - Z.to_nat c) (Z.to_nat c)) as Hclear.
    fold (line_end (content cfg) (get_line_terminator cfg) (Z.to_nat c)) in Hstop, Hclear.
    set (e := line_end _ _ _) in *.
    assert (Hlen : (Z.to_nat c < List.length (content cfg))%nat) by lia.
    rewrite Nat2Z.id.
    rewrite (skipn_span (content cfg) (Z.to_nat c) e) by lia.
    destruct (Nat.eq_dec e (List.length (content cfg))) as [Hend|Hmid].
    + rewrite owned_lines_empty by lia.
      replace (skipn e (content cfg)) with (@nil ascii)
        by (symmetry; apply skipn_all2; lia).
      simpl flat_map. rewrite !app_nil_r.
      replace (Ascii.eqb _ _) with false; [reflexivity|].
      symmetry. apply Ascii.eqb_neq. intros Hlast.
      assert (Hne : span (content cfg) (Z.to_nat c) (e - Z.to_nat c) <> []).
      { intros Hnil. apply (f_equal (@List.length ascii)) in Hnil.
        rewrite span_length in Hnil by lia. simpl in Hnil. lia. }
      pose proof (last_In _ (get_line_terminator cfg) Hne) as Hin'.
      rewrite Hlast in Hin'. apply span_In in Hin'.
      destruct Hin' as (j & Hj & Hd).
      specialize (Hclear j). rewrite Hd, Ascii.eqb_refl in Hclear.
      assert (true = false) by (apply Hclear; lia). discriminate.
    + assert (Hterm : deref (content cfg) e = get_line_terminator cfg)
        by (apply Ascii.eqb_eq, Hstop; lia).
      rewrite (skipn_deref (content cfg) e) by lia. rewrite Hterm.
      rewrite last_app_cons_default.
      rewrite (IH (Z.of_nat e + 1)).
      * replace (Z.to_nat (Z.of_nat e + 1)) with (S e) by lia.
        rewrite <- !app_assoc. reflexivity.
      * lia.
      * lia.
      * intros _. replace (Z.to_nat (Z.of_nat e + 1)) with (S e) by lia.
        apply Hafter; lia.
Qed.

Lemma unparse_rows_of (cfg : CsvConfig) (lines : list Z) :
  Forall (fun r => exists row, r = Return row) (map (row_at cfg) lines) ->
  unparse cfg (rows_of (map (row_at cfg) lines))
  = flat_map (fun s => span (content cfg) (Z.to_nat s) (Z.to_nat (line_length_at cfg s))
                       ++ [get_line_terminator cfg])
      lines.
Proof.
  induction lines as [|s lines IH]; intros Hall; [reflexivity|].
  simpl in Hall. inversion Hall as [|? ? [row Hrow] Hrest]; subst.
  simpl map. rewrite Hrow. simpl rows_of. unfold unparse in *. simpl flat_map.
  rewrite IH by exact Hrest. f_equal.
  unfold unparse_row. destruct (row_at_join _ _ _ Hrow) as [-> _]. reflexivity.
Qed.

(** X9: parsing loses nothing.  For a constructed configuration whose body
    parses without error, writing the rows of the whole body back, fields
    joined by the field terminator and every row followed by the line
    terminator, gives the bytes of the body, with one line terminator added
    when the body does not end with one. *)
Theorem whole_body_round_trip (char_is_signed : bool) (text : list ascii)
    (has_header : bool) (ft lt : ascii) (cfg : CsvConfig)
    (outs : list (result (list string))) :
  Z.of_nat (List.length text) <= OFF_MAX ->
  CsvConfig_new char_is_signed text has_header ft lt = Return cfg ->
  parse_range cfg (body_offset cfg, filesize cfg - 1) = Some outs ->
  Forall (fun r => exists row, r = Return row) outs ->
  unparse cfg (rows_of outs)
  = skipn (Z.to_nat (body_offset cfg)) text
    ++ (if Ascii.eqb (last (skipn (Z.to_nat (body_offset cfg)) text) lt) lt
        then [] else [lt]).
Proof.
  intros Hsize Hnew Hparse Hall.
  apply CsvConfig_new_inv in Hnew. destruct Hnew as [Hne Hcfg].
  assert (Hfs : filesize cfg = Z.of_nat (List.length text)) by (subst cfg; reflexivity).
  assert (Hct : content cfg = text) by (subst cfg; reflexivity).
  assert (Hlt : get_line_terminator cfg = lt) by (subst cfg; reflexivity).
  assert (Hpos : 1 <= filesize cfg).
  { rewrite Hfs. destruct text; [contradiction | simpl List.length; lia]. }
  pose proof (body_offset_nonneg cfg) as Hb.
  rewrite parse_range_spec in Hparse by lia.
  injection Hparse as <-.
  rewrite unparse_rows_of by exact Hall.
  assert (Hstart : body_offset cfg < filesize cfg ->
            is_line_start (content cfg) (get_line_terminator cfg)
              (Z.to_nat (body_offset cfg)) = true).
  { rewrite Hct, Hlt, Hfs. subst cfg. unfold body_offset. simpl.
    destruct has_header; simpl; [|reflexivity].
    pose proof (first_line_length_le lt text). pose proof OFF_MAX_lt.
    rewrite wrap64_small by lia. intros Hin.
    replace (Z.to_nat (Z.of_nat (List.length (first_line text lt)) + 1))
      with (S (List.length (first_line text lt))) by lia.
    simpl. apply first_line_stops_at_terminator. lia. }
  rewrite (lines_spell_buffer cfg (Z.to_nat (filesize cfg)) (body_offset cfg))
    by (exact Hstart || lia).
  rewrite Hct, Hlt. reflexivity.
Qed.

Lemma whole_body_round_trip_witness :
  unparse abc_config
    (rows_of [Return ["1"; "2"; "3"]; Return ["4"; "5"; "6"]]%string)
  = skipn (Z.to_nat (body_offset abc_config)) abc_text
    ++ (if Ascii.eqb
             (last (skipn (Z.to_nat (body_offset abc_config)) abc_text) "010"%char)
             "010"%char
        then [] else ["010"%char]).
Proof.
  apply (whole_body_round_trip true abc_text true "," "010" abc_config
           [Return ["1"; "2"; "3"]; Return ["4"; "5"; "6"]]%string).
  - vm_compute. discriminate.
  - reflexivity.
  - reflexivity.
  - repeat constructor; eexists; reflexivity.
Defined.

(** ** Cutting a range in two *)

(** X10: any range of a parser, not only the whole body, can be cut at any
    offset: the results of the range are those of its first part followed
    by those of its second part. *)
Theorem range_splits (cfg : CsvConfig) (from cut to : Z) :
  filesize cfg <= OFF_MAX ->
  body_offset cfg <= from <= cut ->
  cut < to < filesize cfg ->
  exists a b : list (result (list string)),
    parse_range cfg (from, cut) = Some a /\
    parse_range cfg (cut + 1, to) = Some b /\
    parse_range cfg (from, to) = Some (a ++ b).
Proof.
  intros Hsize Hfrom Hto. pose proof (body_offset_nonneg cfg) as Hb.
  exists (map (row_at cfg) (owned_lines cfg from cut)),
    (map (row_at cfg) (owned_lines cfg (cut + 1) to)).
  rewrite !parse_range_spec by lia.
  rewrite <- map_app, owned_lines_app by lia.
  repeat split.
Qed.

Lemma range_splits_witness :
  exists a b : list (result (list string)),
    parse_range ragged_config (1, 4) = Some a /\
    parse_range ragged_config (4 + 1, 8) = Some b /\
    parse_range ragged_config (1, 8) = Some (a ++ b).
Proof.
  apply (range_splits ragged_config 1 4 8).
  - vm_compute. discriminate.
  - vm_compute. split; discriminate.
  - vm_compute. split; reflexivity.
Defined.

End PCP.
